(** * Local extrema detection: a shallow embedding and its properties

    The development embeds two Python sources:

    - [unified_extrema_detector.py], class [UnifiedExtremaDetector]
      (module [Detector] below);
    - [local_extrema_gui.py], the data-processing methods of
      [LocalExtremaGUI] (module [Gui] below).

    Conventions of the embedding.

    - A Python [float] is an exact rational ([Q]); comparisons are the
      boolean comparisons of [Q].  Nothing below depends on rounding.
    - A Python [int] is a [Z]; an extremum [(index, value)] is a pair
      [Z * Q].
    - [numpy.sqrt] (used by [numpy.std]) has no rational counterpart; it is
      the single operation of the class [NumpySqrt], and every statement
      holds for every instance of it.
    - A Python exception is a value [Raise e] of the type [result]. *)

From Stdlib Require Import String.
From Stdlib Require Import QArith Qabs ZArith List Bool Lia.
From Stdlib Require Import Permutation Sorted RelationClasses Morphisms Lqa.
From Stdlib Require Import FinFun.
Import ListNotations.

Open Scope Z_scope.

(** ** Comparisons on floats *)

Definition Qltb (x y : Q) : bool := negb (Qle_bool y x).
Definition Qgtb (x y : Q) : bool := Qltb y x.
Definition Qgeb (x y : Q) : bool := Qle_bool y x.

Infix "<?" := Qltb (at level 70, no associativity) : Q_scope.
Infix "<=?" := Qle_bool (at level 70, no associativity) : Q_scope.
Infix ">?" := Qgtb (at level 70, no associativity) : Q_scope.
Infix ">=?" := Qgeb (at level 70, no associativity) : Q_scope.

(** ** Exceptions *)

Inductive error : Type :=
| TypeError
| IndexError.

Inductive result (A : Type) : Type :=
| Ok (a : A)
| Raise (e : error).

Arguments Ok {A} a.
Arguments Raise {A} e.

Definition bind {A B : Type} (r : result A) (k : A -> result B) : result B :=
  match r with
  | Ok a => k a
  | Raise e => Raise e
  end.

Notation "x <- r ;; k" := (bind r (fun x => k))
  (at level 61, r at next level, right associativity).

(** ** Python built-ins *)

Module Py.

(** [len(l)] *)
Definition len {A : Type} (l : list A) : Z := Z.of_nat (length l).

(** [range(a, b)] *)
Definition range (a b : Z) : list Z :=
  map (fun k => a + Z.of_nat k) (seq 0 (Z.to_nat (b - a))).

(** [data[i]] for an index the surrounding loop keeps in [0 <= i < len];
    the default of [nth] is never returned there. *)
Definition item (data : list Q) (i : Z) : Q := nth (Z.to_nat i) data 0%Q.

(** [data[i]] for an arbitrary integer: negative indices count from the
    end, anything outside [-len <= i < len] raises [IndexError]. *)
Definition getitem (data : list Q) (i : Z) : result Q :=
  let j := if i <? 0 then i + len data else i in
  if (0 <=? j) && (j <? len data) then Ok (item data j) else Raise IndexError.

(** A slice bound: negative bounds count from the end, then the bound is
    clipped to [0, len]. *)
Definition clip_bound (n b : Z) : Z :=
  let b' := if b <? 0 then b + n else b in
  Z.max 0 (Z.min n b').

(** [data[a:b]] *)
Definition slice {A : Type} (data : list A) (a b : Z) : list A :=
  let a' := clip_bound (len data) a in
  let b' := clip_bound (len data) b in
  firstn (Z.to_nat (b' - a')) (skipn (Z.to_nat a') data).

(** [min(l)] on a non-empty list: the first least element. *)
Definition min_of (l : list Q) : Q :=
  match l with
  | [] => 0%Q
  | x :: t => fold_left (fun m y => if (y <? m)%Q then y else m) t x
  end.

(** [max(l)] on a non-empty list: the first greatest element. *)
Definition max_of (l : list Q) : Q :=
  match l with
  | [] => 0%Q
  | x :: t => fold_left (fun m y => if (y >? m)%Q then y else m) t x
  end.

(** [min(a, b)] on two floats. *)
Definition min2 (a b : Q) : Q := if (b <? a)%Q then b else a.

(** Stable sorting.  [before x y] says that [x] may stay in front of [y];
    an element inserted from the left goes in front of the first element
    it may stay in front of, so equal keys keep their original order. *)
Fixpoint insert {A : Type} (before : A -> A -> bool) (x : A) (l : list A)
  : list A :=
  match l with
  | [] => [x]
  | y :: t => if before x y then x :: y :: t else y :: insert before x t
  end.

Fixpoint stable_sort {A : Type} (before : A -> A -> bool) (l : list A)
  : list A :=
  match l with
  | [] => []
  | x :: t => insert before x (stable_sort before t)
  end.

(** [sorted(l, key=key)] with integer keys. *)
Definition sorted_by_key {A : Type} (key : A -> Z) (l : list A) : list A :=
  stable_sort (fun x y => key x <=? key y) l.

(** [sorted(l, key=key, reverse=True)] with float keys: descending, and
    still stable. *)
Definition sorted_by_key_reverse {A : Type} (key : A -> Q) (l : list A)
  : list A :=
  stable_sort (fun x y => (key y <=? key x)%Q) l.

(** [sorted(l)] on a list of [(int, float)] tuples: lexicographic. *)
Definition tuple_le (x y : Z * Q) : bool :=
  (fst x <? fst y) || ((fst x =? fst y) && (snd x <=? snd y)%Q).

Definition sorted_items (l : list (Z * Q)) : list (Z * Q) :=
  stable_sort tuple_le l.

(** A [dict] with integer keys, as the list of its items in insertion
    order: assigning to a present key overwrites the value in place,
    assigning to an absent key appends the item. *)
Fixpoint dict_set (d : list (Z * Q)) (k : Z) (v : Q) : list (Z * Q) :=
  match d with
  | [] => [(k, v)]
  | (k', v') :: t =>
      if k' =? k then (k', v) :: t else (k', v') :: dict_set t k v
  end.

(** [{idx: val for idx, val in l}.items()] *)
Definition dict_of (l : list (Z * Q)) : list (Z * Q) :=
  fold_left (fun d kv => dict_set d (fst kv) (snd kv)) l [].

End Py.

Import Py.

(** ** numpy *)

Class NumpySqrt : Type := np_sqrt : Q -> Q.

Module Np.

Definition sum (a : list Q) : Q := fold_left Qplus a 0%Q.

(** [np.mean(a)] *)
Definition mean (a : list Q) : Q := (sum a / inject_Z (len a))%Q.

(** [np.std(a)]: population standard deviation. *)
Definition std `{NumpySqrt} (a : list Q) : Q :=
  let m := mean a in
  np_sqrt (mean (map (fun x => Qabs (x - m) * Qabs (x - m))%Q a)).

(** [np.diff(a)] *)
Fixpoint diff (a : list Q) : list Q :=
  match a with
  | x :: ((y :: _) as t) => (y - x)%Q :: diff t
  | _ => []
  end.

(** [np.sign(x)] *)
Definition sign (x : Q) : Q :=
  if (x <? 0)%Q then (-1)%Q else if (0 <? x)%Q then 1%Q else 0%Q.

(** [np.sum(a != 0)] *)
Definition count_nonzero (a : list Q) : Z :=
  len (filter (fun x => negb (Qeq_bool x 0)) a).

End Np.

(** ** Extrema *)

(** [(index, value)] *)
Definition extremum : Type := Z * Q.

(** The tags ['max'] and ['min'] of the alternating strategies. *)
Inductive kind : Type :=
| KMax
| KMin.

Definition kind_eqb (a b : kind) : bool :=
  match a, b with
  | KMax, KMax | KMin, KMin => true
  | _, _ => false
  end.

(** [(typ, idx, val)] *)
Definition tagged : Type := kind * Z * Q.

Definition tag (k : kind) (e : extremum) : tagged := (k, fst e, snd e).
Definition typ_of (t : tagged) : kind := fst (fst t).
Definition idx_of (t : tagged) : Z := snd (fst t).
Definition val_of (t : tagged) : Q := snd t.

(** [[(idx, val) for typ, idx, val in l if typ == k]] *)
Definition of_kind (k : kind) (l : list tagged) : list extremum :=
  map (fun t => (idx_of t, val_of t))
      (filter (fun t => kind_eqb (typ_of t) k) l).

(** [for idx, val in maxima: all.append(('max', idx, val))], then the same
    for the minima. *)
Definition merge_tagged (maxima minima : list extremum) : list tagged :=
  map (tag KMax) maxima ++ map (tag KMin) minima.

(** ** unified_extrema_detector.py *)

Module Detector.

Notation "data .[ i ]" := (item data i) (at level 1, format "data .[ i ]").

Local Open Scope Q_scope.

(** The keyword arguments [**kwargs] of [detect_extrema]: each of the two
    recognised keywords is present or absent. *)
Record kwargs : Type := mk_kwargs {
  kw_threshold : option Q;
  kw_window_size : option Z
}.

Definition default_threshold : Q := 0.0001.
Definition default_window_size : Z := 3%Z.

Definition threshold_of (kw : kwargs) : Q :=
  match kw_threshold kw with Some t => t | None => default_threshold end.

Definition window_size_of (kw : kwargs) : Z :=
  match kw_window_size kw with Some w => w | None => default_window_size end.

(** *** [_detect_simple] *)

(** One iteration of [for i in range(1, len(data) - 1)]. *)
Definition simple_body (data : list Q) (threshold : Q)
    (acc : list extremum * list extremum) (i : Z)
  : list extremum * list extremum :=
  let '(minima, maxima) := acc in
  let prev_val := data.[i - 1] in
  let curr_val := data.[i] in
  let next_val := data.[i + 1] in
  if (curr_val >? prev_val + threshold) && (curr_val >=? next_val - threshold)
  then (minima, maxima ++ [(i, curr_val)])
  else if (curr_val <? prev_val - threshold)
          && (curr_val <=? next_val + threshold)
  then (minima ++ [(i, curr_val)], maxima)
  else (minima, maxima).

Definition _detect_simple (data : list Q) (threshold : Q)
  : list extremum * list extremum :=
  if (len data <? 3)%Z then ([], [])
  else fold_left (simple_body data threshold)
                 (range 1 (len data - 1)) ([], []).

(** *** [_detect_window] *)

Definition window_body (data : list Q) (window_size : Z)
    (acc : list extremum * list extremum) (i : Z)
  : list extremum * list extremum :=
  let '(minima, maxima) := acc in
  let current_value := data.[i] in
  let left_window := slice data (i - window_size) i in
  let right_window := slice data (i + 1) (i + window_size + 1) in
  let is_local_max :=
    forallb (fun val => current_value >=? val) (left_window ++ right_window) in
  let is_local_min :=
    forallb (fun val => current_value <=? val) (left_window ++ right_window) in
  if is_local_max then (minima, maxima ++ [(i, current_value)])
  else if is_local_min then (minima ++ [(i, current_value)], maxima)
  else (minima, maxima).

(** With a negative [window_size] that passes the length guard, the loop
    [range(window_size, len(data) - window_size)] runs through
    [i = len(data)], where [data[i]] raises [IndexError] (if no earlier
    [data[i]] did); nothing else in the loop raises.  With
    [window_size >= 0] every index and slice bound is in range. *)
Definition _detect_window (data : list Q) (window_size : Z)
  : result (list extremum * list extremum) :=
  if (len data <? window_size + 2)%Z then Ok ([], [])
  else if (window_size <? 0)%Z then Raise IndexError
  else Ok (fold_left (window_body data window_size)
                     (range window_size (len data - window_size)) ([], [])).

(** *** [_detect_slope] *)

Definition slopes_of (data : list Q) : list Q :=
  map (fun i => data.[i + 1] - data.[i]) (range 0 (len data - 1)).

Definition slope_body (data slopes : list Q) (threshold : Q)
    (acc : list extremum * list extremum) (i : Z)
  : list extremum * list extremum :=
  let '(minima, maxima) := acc in
  let prev_slope := slopes.[i - 1] in
  let curr_slope := slopes.[i] in
  if Qabs curr_slope <? threshold then (minima, maxima)
  else if (prev_slope >? threshold) && (curr_slope <? - threshold)
  then (minima, maxima ++ [(i, data.[i])])
  else if (prev_slope <? - threshold) && (curr_slope >? threshold)
  then (minima ++ [(i, data.[i])], maxima)
  else (minima, maxima).

Definition _detect_slope (data : list Q) (threshold : Q)
  : list extremum * list extremum :=
  if (len data <? 4)%Z then ([], [])
  else
    let slopes := slopes_of data in
    fold_left (slope_body data slopes threshold)
              (range 1 (len slopes - 1)) ([], []).

(** *** [_detect_alternating] *)

(** The candidate loop; the accumulator is [(all_minima, all_maxima)]. *)
Definition alternating_candidates_body (data : list Q) (threshold : Q)
    (acc : list extremum * list extremum) (i : Z)
  : list extremum * list extremum :=
  let '(all_minima, all_maxima) := acc in
  let prev_val := data.[i - 1] in
  let curr_val := data.[i] in
  let next_val := data.[i + 1] in
  if (curr_val >? prev_val + threshold)
     && (curr_val >? next_val + threshold)
     && (curr_val >? data.[i - 2] + threshold)
     && (curr_val >? data.[i + 2] + threshold)
  then (all_minima, all_maxima ++ [(i, curr_val)])
  else if (curr_val <? prev_val - threshold)
          && (curr_val <? next_val - threshold)
          && (curr_val <? data.[i - 2] - threshold)
          && (curr_val <? data.[i + 2] - threshold)
  then (all_minima ++ [(i, curr_val)], all_maxima)
  else (all_minima, all_maxima).

(** One iteration of [for typ, idx, val in all_extrema]. *)
Definition alternating_walk_body (threshold : Q)
    (extrema : list tagged) (e : tagged) : list tagged :=
  let '(typ, idx, val) := e in
  match extrema with
  | [] => extrema ++ [(typ, idx, val)]
  | _ :: _ =>
      let last_type := typ_of (last extrema e) in
      if negb (kind_eqb typ last_type) then
        let last_val := val_of (last extrema e) in
        if kind_eqb typ KMax && (val >? last_val + threshold)
        then extrema ++ [(typ, idx, val)]
        else if kind_eqb typ KMin && (val <? last_val - threshold)
        then extrema ++ [(typ, idx, val)]
        else extrema
      else extrema
  end.

Definition _detect_alternating (data : list Q) (threshold : Q)
  : list extremum * list extremum :=
  if (len data <? 5)%Z then ([], [])
  else
    let '(all_minima, all_maxima) :=
      fold_left (alternating_candidates_body data threshold)
                (range 2 (len data - 2)) ([], []) in
    let all_extrema := sorted_by_key idx_of (merge_tagged all_maxima all_minima) in
    let extrema := fold_left (alternating_walk_body threshold) all_extrema [] in
    (of_kind KMin extrema, of_kind KMax extrema).

(** *** [_detect_enhanced] and [_detect_strict] *)

(** The inner loop [for j in range(i-3, i+4)] of the maximum test. *)
Definition is_max_candidate (data : list Q) (i : Z) : bool :=
  forallb (fun j => negb (negb (j =? i)%Z && (data.[j] >=? data.[i])))
          (range (i - 3) (i + 4)).

(** The minimum test: the ceiling first, then the inner loop. *)
Definition is_min_candidate (data : list Q) (min_threshold : Q) (i : Z)
  : bool :=
  if data.[i] >? min_threshold then false
  else forallb (fun j => negb (negb (j =? i)%Z && (data.[j] <=? data.[i])))
               (range (i - 3) (i + 4)).

(** The candidate loop; the accumulator is
    [(potential_minima, potential_maxima)]. *)
Definition potential_body (data : list Q) (min_threshold : Q)
    (acc : list extremum * list extremum) (i : Z)
  : list extremum * list extremum :=
  let '(potential_minima, potential_maxima) := acc in
  let curr_val := data.[i] in
  let potential_maxima :=
    if is_max_candidate data i then potential_maxima ++ [(i, curr_val)]
    else potential_maxima in
  let potential_minima :=
    if is_min_candidate data min_threshold i
    then potential_minima ++ [(i, curr_val)]
    else potential_minima in
  (potential_minima, potential_maxima).

(** The acceptance walk of [_detect_enhanced]. *)
Definition enhanced_walk_body (threshold min_threshold : Q)
    (final_extrema : list tagged) (e : tagged) : list tagged :=
  let '(typ, idx, val) := e in
  match final_extrema with
  | [] => final_extrema ++ [(typ, idx, val)]
  | _ :: _ =>
      let '(last_type, last_idx, last_val) := last final_extrema e in
      if negb (kind_eqb typ last_type) then
        let distance := (idx - last_idx)%Z in
        let value_change := Qabs (val - last_val) in
        if (distance >=? 2)%Z && (value_change >=? threshold) then
          if kind_eqb typ KMin && (val <=? min_threshold)
             && (val <? last_val - threshold * 2)
          then final_extrema ++ [(typ, idx, val)]
          else if kind_eqb typ KMax && (val >? last_val + threshold * 2)
          then final_extrema ++ [(typ, idx, val)]
          else final_extrema
        else final_extrema
      else final_extrema
  end.

Definition _detect_enhanced (data : list Q) (threshold : Q)
  : list extremum * list extremum :=
  if (len data <? 7)%Z then ([], [])
  else
    let min_val := min_of data in
    let max_val := max_of data in
    let data_range := max_val - min_val in
    let min_threshold := min2 0.4 (min_val + data_range * 0.3) in
    let '(potential_minima, potential_maxima) :=
      fold_left (potential_body data min_threshold)
                (range 3 (len data - 3)) ([], []) in
    let all_extrema :=
      sorted_by_key idx_of (merge_tagged potential_maxima potential_minima) in
    let final_extrema :=
      fold_left (enhanced_walk_body threshold min_threshold) all_extrema [] in
    (of_kind KMin final_extrema, of_kind KMax final_extrema).

(** The acceptance walk of [_detect_strict]. *)
Definition strict_walk_body (threshold min_threshold : Q)
    (final_extrema : list tagged) (e : tagged) : list tagged :=
  let '(typ, idx, val) := e in
  match final_extrema with
  | [] =>
      if kind_eqb typ KMax || (kind_eqb typ KMin && (val <=? min_threshold))
      then final_extrema ++ [(typ, idx, val)]
      else final_extrema
  | _ :: _ =>
      let '(last_type, last_idx, last_val) := last final_extrema e in
      if negb (kind_eqb typ last_type) then
        let distance := (idx - last_idx)%Z in
        let value_change := Qabs (val - last_val) in
        if (distance >=? 3)%Z && (value_change >=? threshold) then
          if kind_eqb typ KMin && (val <=? min_threshold)
             && (val <? last_val - threshold * 3)
          then final_extrema ++ [(typ, idx, val)]
          else if kind_eqb typ KMax && (val >? last_val + threshold * 3)
          then final_extrema ++ [(typ, idx, val)]
          else final_extrema
        else final_extrema
      else final_extrema
  end.

Definition _detect_strict (data : list Q) (threshold : Q)
  : list extremum * list extremum :=
  if (len data <? 7)%Z then ([], [])
  else
    let min_threshold := 0.4 in
    let '(potential_minima, potential_maxima) :=
      fold_left (potential_body data min_threshold)
                (range 3 (len data - 3)) ([], []) in
    let all_extrema :=
      sorted_by_key idx_of (merge_tagged potential_maxima potential_minima) in
    let final_extrema :=
      fold_left (strict_walk_body threshold min_threshold) all_extrema [] in
    (of_kind KMin final_extrema, of_kind KMax final_extrema).

(** *** [_post_process_results] *)

(** One iteration of [for i in range(1, len(extrema))]. *)
Definition remove_close_body (min_distance : Z)
    (filtered : list extremum) (e : extremum) : list extremum :=
  let current_idx := fst e in
  let last_kept_idx := fst (last filtered e) in
  if (current_idx - last_kept_idx >=? min_distance)%Z
  then filtered ++ [e]
  else filtered.

Definition _remove_close_extrema (extrema : list extremum) (min_distance : Z)
  : list extremum :=
  match extrema with
  | [] => []
  | first :: rest => fold_left (remove_close_body min_distance) rest [first]
  end.

(** The test one extremum undergoes in [_filter_by_quality]; an empty
    local window ([continue]) drops it. *)
Definition quality_ok (data : list Q) (noise_level : Q) (is_minimum : bool)
    (e : extremum) : bool :=
  let '(idx, val) := e in
  let window_size := Z.min 3 (len data / 10) in
  let start_idx := Z.max 0 (idx - window_size) in
  let end_idx := Z.min (len data) (idx + window_size + 1) in
  let local_data := slice data start_idx end_idx in
  match local_data with
  | [] => false
  | _ :: _ =>
      if is_minimum then val <=? min_of local_data + noise_level * 2
      else val >=? max_of local_data - noise_level * 2
  end.

Definition quality_body (data : list Q) (noise_level : Q) (is_minimum : bool)
    (filtered : list extremum) (e : extremum) : list extremum :=
  if quality_ok data noise_level is_minimum e
  then filtered ++ [(fst e, snd e)]
  else filtered.

Definition _filter_by_quality (extrema : list extremum) (data : list Q)
    (noise_level : Q) (is_minimum : bool) : list extremum :=
  match extrema with
  | [] => []
  | _ :: _ => fold_left (quality_body data noise_level is_minimum) extrema []
  end.

(** The dictionary [analyze_data_characteristics] builds. *)
Record stats : Type := mk_stats {
  length_ : Z;
  min_val : Q;
  max_val : Q;
  mean_val : Q;
  std_val : Q;
  range_val : Q;
  noise_level : Q;
  variability : Q;
  extrema_density : Q;
  is_oscillatory : bool;
  has_plateaus : bool;
  estimated_extrema_count : Z
}.

(** A characteristics dictionary is either empty ([None], what the
    analysis returns on empty data) or has all twelve keys. *)
Definition characteristics : Type := option stats.

(** [characteristics.get(key, default)] *)
Definition get {A : Type} (c : characteristics) (field : stats -> A)
    (default : A) : A :=
  match c with
  | Some s => field s
  | None => default
  end.

Definition _post_process_results (minima maxima : list extremum)
    (data : list Q) (c : characteristics)
  : list extremum * list extremum :=
  let minima_dict := dict_of minima in
  let maxima_dict := dict_of maxima in
  let minima := sorted_items minima_dict in
  let maxima := sorted_items maxima_dict in
  let min_distance := Z.max 2 (len data / 100) in
  let minima := _remove_close_extrema minima min_distance in
  let maxima := _remove_close_extrema maxima min_distance in
  let noise_level := get c noise_level 0 in
  if noise_level >? 0 then
    (_filter_by_quality minima data noise_level true,
     _filter_by_quality maxima data noise_level false)
  else (minima, maxima).

(** *** [analyze_data_characteristics] and [select_optimal_method] *)

Definition _is_oscillatory_pattern (data : list Q) : bool :=
  if (len data <? 10)%Z then false
  else
    let diffs := Np.diff data in
    let sign_changes := Np.count_nonzero (Np.diff (map Np.sign diffs)) in
    let change_rate :=
      if (len diffs >? 0)%Z then inject_Z sign_changes / inject_Z (len diffs)
      else 0 in
    change_rate >? 0.3.

(** One iteration of [for diff in diffs]; the accumulator is
    [(consecutive_similar, max_consecutive)]. *)
Definition plateau_body (plateau_threshold : Q) (acc : Z * Z) (diff : Q)
  : Z * Z :=
  let '(consecutive_similar, max_consecutive) := acc in
  if diff <? plateau_threshold
  then ((consecutive_similar + 1)%Z,
        Z.max max_consecutive (consecutive_similar + 1))
  else (0%Z, max_consecutive).

Definition _has_plateaus (data : list Q) (noise_level : Q) : bool :=
  if (len data <? 5)%Z then false
  else
    let diffs := map Qabs (Np.diff data) in
    let plateau_threshold := noise_level * 0.5 in
    let '(_, max_consecutive) :=
      fold_left (plateau_body plateau_threshold) diffs (0%Z, 0%Z) in
    (max_consecutive >=? 5)%Z.

Section WithNumpy.

Context `{NumpySqrt}.

Definition analyze_data_characteristics (data : list Q) : characteristics :=
  match data with
  | [] => None
  | _ :: _ =>
      let min_val := min_of data in
      let max_val := max_of data in
      let mean_val := Np.mean data in
      let std_val := Np.std data in
      let range_val := max_val - min_val in
      let data_length := len data in
      let diffs := Np.diff data in
      let noise_level := Np.std diffs in
      let variability := if range_val >? 0 then std_val / range_val else 0 in
      let simple_extrema := _detect_simple data (noise_level * 0.1) in
      let estimated_extrema_count :=
        (len (fst simple_extrema) + len (snd simple_extrema))%Z in
      let extrema_density :=
        if (data_length >? 0)%Z
        then inject_Z estimated_extrema_count / inject_Z data_length
        else 0 in
      let is_oscillatory := _is_oscillatory_pattern data in
      let has_plateaus := _has_plateaus data noise_level in
      Some (mk_stats data_length min_val max_val mean_val std_val range_val
                     noise_level variability extrema_density
                     is_oscillatory has_plateaus estimated_extrema_count)
  end.

Definition select_optimal_method (c : characteristics) : string :=
  let length := get c length_ 0%Z in
  let variability := get c variability 0 in
  let extrema_density := get c extrema_density 0 in
  let is_oscillatory := get c is_oscillatory false in
  let has_plateaus := get c has_plateaus false in
  let noise_level := get c noise_level 0 in
  if (length <? 10)%Z then "simple"%string
  else if is_oscillatory && (extrema_density >? 0.1) then "alternating"%string
  else if has_plateaus then "window"%string
  else if noise_level >? get c std_val 1 * 0.1 then "enhanced"%string
  else if extrema_density >? 0.2 then "strict"%string
  else if variability <? 0.1 then "slope"%string
  else "enhanced"%string.

(** [self.detection_methods[method](data, **kwargs)], and the fallback
    to [_detect_enhanced] for a name that is not in the table.
    [_detect_simple] has no [window_size] parameter and no [**kwargs]:
    passing it [window_size] raises [TypeError]. *)
Definition dispatch (method : string) (data : list Q) (kw : kwargs)
  : result (list extremum * list extremum) :=
  if String.eqb method "simple" then
    match kw_window_size kw with
    | Some _ => Raise TypeError
    | None => Ok (_detect_simple data (threshold_of kw))
    end
  else if String.eqb method "window" then
    _detect_window data (window_size_of kw)
  else if String.eqb method "slope" then
    Ok (_detect_slope data (threshold_of kw))
  else if String.eqb method "alternating" then
    Ok (_detect_alternating data (threshold_of kw))
  else if String.eqb method "enhanced" then
    Ok (_detect_enhanced data (threshold_of kw))
  else if String.eqb method "strict" then
    Ok (_detect_strict data (threshold_of kw))
  else Ok (_detect_enhanced data (threshold_of kw)).

Definition detect_extrema (data : list Q) (method : option string)
    (kw : kwargs) : result (list extremum * list extremum) :=
  if (len data <? 3)%Z then Ok ([], [])
  else
    let characteristics := analyze_data_characteristics data in
    let method :=
      match method with
      | None => select_optimal_method characteristics
      | Some m => m
      end in
    r <- dispatch method data kw ;;
    Ok (_post_process_results (fst r) (snd r) data characteristics).

End WithNumpy.

End Detector.

(** ** local_extrema_gui.py *)

Module Gui.

Import Detector.

Local Open Scope Q_scope.

(** *** [apply_threshold_filter] *)

Definition apply_threshold_filter (minima maxima : list extremum)
    (max_threshold min_threshold : Q) : list extremum * list extremum :=
  let filtered_maxima :=
    if max_threshold >? 0
    then filter (fun e => snd e >=? max_threshold) maxima
    else maxima in
  let filtered_minima :=
    if min_threshold <? 999
    then filter (fun e => snd e <=? min_threshold) minima
    else minima in
  (filtered_minima, filtered_maxima).

(** *** [filter_results_by_count] *)

(** [method in ["alternating", "enhanced", "strict"]] *)
Definition alternating_family (method : string) : bool :=
  String.eqb method "alternating" || String.eqb method "enhanced"
  || String.eqb method "strict".

(** [sorted(l, key=lambda x: abs(x[1]), reverse=True)] *)
Definition sorted_by_abs_desc (l : list extremum) : list extremum :=
  sorted_by_key_reverse (fun x => Qabs (snd x)) l.

(** The rule applied to each list: [limit > 0 and len(l) > limit]. *)
Definition top_by_abs (l : list extremum) (limit : Z) : list extremum :=
  if ((limit >? 0) && (len l >? limit))%Z
  then firstn (Z.to_nat limit) (sorted_by_abs_desc l)
  else l.

Definition filter_results_by_count (minima maxima : list extremum)
    (max_count_limit min_count_limit : Z) (method : string)
  : list extremum * list extremum :=
  if alternating_family method then (minima, maxima)
  else
    let maxima := top_by_abs maxima max_count_limit in
    let minima := top_by_abs minima min_count_limit in
    (minima, maxima).

(** *** [find_extrema_around_selections] *)

(** A selection [(selected_idx, selected_x, selected_y)]. *)
Definition selection : Type := Z * Q * Q.

Definition selected_idx_of (s : selection) : Z := fst (fst s).

(** [(idx, val) in l]: tuple equality, component by component. *)
Definition mem (e : extremum) (l : list extremum) : bool :=
  existsb (fun x => (fst x =? fst e)%Z && Qeq_bool (snd x) (snd e)) l.

(** The search around one selected maximum: the window loop, started from
    the selected point. *)
Definition snap_max (data : list Q) (selected_idx : Z) : result extremum :=
  let window_size := 10%Z in
  let start_idx := Z.max 0 (selected_idx - window_size) in
  let end_idx := Z.min (len data) (selected_idx + window_size + 1) in
  local_max_val <- getitem data selected_idx ;;
  Ok (fold_left
        (fun best i => if data.[i] >? snd best then (i, data.[i]) else best)
        (range start_idx end_idx) (selected_idx, local_max_val)).

(** The search around one selected minimum. *)
Definition snap_min (data : list Q) (selected_idx : Z) : result extremum :=
  let window_size := 10%Z in
  let start_idx := Z.max 0 (selected_idx - window_size) in
  let end_idx := Z.min (len data) (selected_idx + window_size + 1) in
  local_min_val <- getitem data selected_idx ;;
  Ok (fold_left
        (fun best i => if data.[i] <? snd best then (i, data.[i]) else best)
        (range start_idx end_idx) (selected_idx, local_min_val)).

(** One of the two loops over the selections: snap, then append unless the
    pair is already there. *)
Fixpoint snap_all (snap : Z -> result extremum) (selected : list selection)
    (found : list extremum) : result (list extremum) :=
  match selected with
  | [] => Ok found
  | s :: rest =>
      e <- snap (selected_idx_of s) ;;
      snap_all snap rest (if mem e found then found else found ++ [e])
  end.

Definition find_extrema_around_selections (data : list Q)
    (selected_maxima selected_minima : list selection)
  : result (list extremum * list extremum) :=
  maxima <- snap_all (snap_max data) selected_maxima [] ;;
  minima <- snap_all (snap_min data) selected_minima [] ;;
  Ok (minima, maxima).

(** *** [calculate_differences] *)

Record DifferencePair : Type := mk_pair {
  pair_number : Z;
  max_index : Z;
  max_value : Q;
  min_index : Z;
  min_value : Q;
  difference : Q
}.

(** The part of the window's state the method reads and writes:
    [self.results] ([None] for the empty dictionary, else its
    [(minima, maxima)]) and [self.difference_results]. *)
Record gui : Type := mk_gui {
  results : option (list extremum * list extremum);
  difference_results : list DifferencePair
}.

(** The loop [for i in range(min_len)], after both lists were sorted. *)
Definition pair_up (maxima minima : list extremum) : list DifferencePair :=
  let maxima_sorted := sorted_by_key fst maxima in
  let minima_sorted := sorted_by_key fst minima in
  let min_len := Z.min (len maxima_sorted) (len minima_sorted) in
  fold_left
    (fun acc i =>
       let '(max_idx, max_val) := nth (Z.to_nat i) maxima_sorted (0%Z, 0) in
       let '(min_idx, min_val) := nth (Z.to_nat i) minima_sorted (0%Z, 0) in
       let difference := max_val - min_val in
       acc ++ [mk_pair (i + 1) max_idx max_val min_idx min_val difference])
    (range 0 min_len) [].

(** The method warns and returns, leaving the state as it was, when there
    are no results or one of the two lists is empty. *)
Definition calculate_differences (g : gui) : gui :=
  match results g with
  | None => g
  | Some (minima, maxima) =>
      match maxima, minima with
      | [], _ | _, [] => g
      | _ :: _, _ :: _ => mk_gui (results g) (pair_up maxima minima)
      end
  end.

(** *** [add_maximum] and [add_minimum] *)

(** The list of selections after a click on the point [idx]: a point
    whose index is already selected is ignored. *)
Definition add_maximum (selected_maxima : list selection) (idx : Z)
    (x_val y_val : Q) : list selection :=
  if existsb (fun s => (selected_idx_of s =? idx)%Z) selected_maxima
  then selected_maxima
  else selected_maxima ++ [(idx, x_val, y_val)].

Definition add_minimum (selected_minima : list selection) (idx : Z)
    (x_val y_val : Q) : list selection :=
  if existsb (fun s => (selected_idx_of s =? idx)%Z) selected_minima
  then selected_minima
  else selected_minima ++ [(idx, x_val, y_val)].

(** *** [run_analysis] *)

(** The entry fields of the window, already parsed: [manual_mode] is
    [mode_var == "manual"]. *)
Record settings : Type := mk_settings {
  manual_mode : bool;
  method_var : string;
  threshold_var : Q;
  window_size_var : Z;
  max_threshold_var : Q;
  min_threshold_var : Q;
  max_count_var : Z;
  min_count_var : Z
}.

(** [get_user_constraints]: a negative count raises [ValueError], which the
    method catches to return [(None, None)]. *)
Definition get_user_constraints (s : settings) : option (Z * Z) :=
  if ((max_count_var s <? 0) || (min_count_var s <? 0))%Z then None
  else Some (max_count_var s, min_count_var s).

Section WithNumpy.

Context `{NumpySqrt}.

Definition find_local_extrema_unified (data : list Q) (method : string)
    (kw : kwargs) : result (list extremum * list extremum) :=
  if String.eqb method "auto" then detect_extrema data None kw
  else detect_extrema data (Some method) kw.

(** The state after [run_analysis]; every exception is caught and leaves
    [self.results] as it was. *)
Definition run_analysis (data : list Q)
    (selected_maxima selected_minima : list selection) (s : settings)
    (g : gui) : gui :=
  match data with
  | [] => g
  | _ :: _ =>
      if manual_mode s then
        match selected_maxima, selected_minima with
        | [], [] => g
        | _, _ =>
            match find_extrema_around_selections data
                    selected_maxima selected_minima with
            | Ok (minima, maxima) =>
                mk_gui (Some (minima, maxima)) (difference_results g)
            | Raise _ => g
            end
        end
      else
        match get_user_constraints s with
        | None => g
        | Some (max_count_limit, min_count_limit) =>
            let method := method_var s in
            match find_local_extrema_unified data method
                    (mk_kwargs (Some (threshold_var s))
                               (Some (window_size_var s))) with
            | Raise _ => g
            | Ok (minima, maxima) =>
                let '(minima, maxima) :=
                  apply_threshold_filter minima maxima
                    (max_threshold_var s) (min_threshold_var s) in
                let '(minima, maxima) :=
                  filter_results_by_count minima maxima
                    max_count_limit min_count_limit method in
                mk_gui (Some (minima, maxima)) (difference_results g)
            end
        end
  end.

End WithNumpy.

(** [clear_results] *)
Definition clear_results (g : gui) : gui := mk_gui None [].

End Gui.

(** * Vocabulary of the statements *)

Import Detector Gui.

(** [b] lies at least [d] indices after [a]. *)
Definition gap_ge (d : Z) (a b : extremum) : Prop := d <= fst b - fst a.

(** Every two adjacent entries of [l] are at least [d] indices apart. *)
Definition min_gap (d : Z) (l : list extremum) : Prop :=
  forall (i : nat) (a b : extremum),
    nth_error l i = Some a -> nth_error l (S i) = Some b -> gap_ge d a b.

(** [minDistance] of the refinement step. *)
Definition min_distance (data : list Q) : Z := Z.max 2 (len data / 100).

(** No index occurs both among the minima and among the maxima. *)
Definition index_disjoint (r : list extremum * list extremum) : Prop :=
  forall i : Z, In i (map fst (fst r)) -> In i (map fst (snd r)) -> False.

(** The window of the manual search around the index [a]. *)
Definition in_snap_window (data : list Q) (a j : Z) : Prop :=
  Z.max 0 (a - 10) <= j < Z.min (len data) (a + 11).

(** [e] is a point of the window around [a] that carries the greatest
    (resp. least) value of the window. *)
Definition window_maximum (data : list Q) (a : Z) (e : extremum) : Prop :=
  in_snap_window data a (fst e)
  /\ snd e = data.[fst e]
  /\ forall j, in_snap_window data a j -> (data.[j] <= snd e)%Q.

Definition window_minimum (data : list Q) (a : Z) (e : extremum) : Prop :=
  in_snap_window data a (fst e)
  /\ snd e = data.[fst e]
  /\ forall j, in_snap_window data a j -> (snd e <= data.[j])%Q.

(** [kept] consists of the [n] entries of [l] of largest absolute value:
    together with the dropped entries it is [l] rearranged in descending
    order of absolute value, entries of equal absolute value in their
    original order. *)
Definition largest_by_abs (l : list extremum) (n : Z) (kept : list extremum)
  : Prop :=
  exists dropped : list extremum,
    len kept = n
    /\ Permutation (kept ++ dropped) l
    /\ StronglySorted (fun x y => (Qabs (snd y) <= Qabs (snd x))%Q)
         (kept ++ dropped)
    /\ forall k : Q,
         filter (fun e => Qeq_bool (Qabs (snd e)) k) (kept ++ dropped)
         = filter (fun e => Qeq_bool (Qabs (snd e)) k) l.

(** [s] is [l] rearranged in ascending order of index, entries of equal
    index in their original order. *)
Definition sorted_by_index (l s : list extremum) : Prop :=
  Permutation s l
  /\ StronglySorted (fun x y => fst x <= fst y) s
  /\ forall k : Z,
       filter (fun e => fst e =? k) s = filter (fun e => fst e =? k) l.

(** The pair the loop emits at position [i]. *)
Definition pair_at (maxima_sorted minima_sorted : list extremum) (i : Z)
  : DifferencePair :=
  let M := nth (Z.to_nat i) maxima_sorted (0, 0%Q) in
  let m := nth (Z.to_nat i) minima_sorted (0, 0%Q) in
  mk_pair (i + 1) (fst M) (snd M) (fst m) (snd m) (snd M - snd m).

(** The only ways a detection run raises: [_detect_simple] was handed a
    [window_size] keyword, or [_detect_window] a negative window size. *)
Definition raise_cause (kw : kwargs) (e : error) : Prop :=
  match e with
  | TypeError => kw_window_size kw <> None
  | IndexError => window_size_of kw < 0
  end.

(** The minima and the maxima of a result, tagged with their kind and read
    in ascending order of index. *)
Definition index_sorted_concat (r : list extremum * list extremum)
  : list tagged :=
  sorted_by_key idx_of (merge_tagged (snd r) (fst r)).

(** No two consecutive entries share a kind. *)
Fixpoint alternates (l : list tagged) : Prop :=
  match l with
  | a :: ((b :: _) as t) => typ_of a <> typ_of b /\ alternates t
  | _ => True
  end.

(** A sequence of 400 values, flat except for two peaks three indices
    apart (at 10 and 13) with a trough between them (at 12) and a second
    trough after them (at 16). *)
Definition two_close_peaks : list Q :=
  (repeat 0 10 ++ [5; 0; -5; 5; 0; 0; -5] ++ repeat 0 383)%Q.

Definition scenario_data : list Q := [0; 5; 1; 6; 2; 7; 0]%Q.

(** A rational approximation of the square root (six decimals, rounded
    down), to run the analysis on concrete data. *)
#[local] Instance approx_sqrt : NumpySqrt :=
  fun q =>
    (inject_Z (Z.sqrt (Qnum q * Zpos (Qden q) * 10 ^ 12))
     / inject_Z (Zpos (Qden q) * 10 ^ 6))%Q.

(** [e] is the point of [data] at an index of [lo, hi). *)
Definition data_point (data : list Q) (lo hi : Z) (e : extremum) : Prop :=
  lo <= fst e < hi /\ snd e = data.[fst e].

(** The indices of [l] increase strictly. *)
Definition index_ascending (l : list extremum) : Prop :=
  StronglySorted (gap_ge 1) l.

(** Both lists of a result consist of points of [data] at indices of
    [lo, hi), in strictly ascending order of index. *)
Definition well_formed_result (data : list Q) (lo hi : Z)
    (r : list extremum * list extremum) : Prop :=
  Forall (data_point data lo hi) (fst r)
  /\ Forall (data_point data lo hi) (snd r)
  /\ index_ascending (fst r)
  /\ index_ascending (snd r).

(** The value at [i] is strictly greater (resp. smaller) than the values
    at the other indices within [radius] of [i], by more than [margin]. *)
Definition strict_peak (data : list Q) (radius : Z) (margin : Q) (i : Z)
  : Prop :=
  forall j, i - radius <= j <= i + radius -> j <> i ->
            (data.[j] + margin < data.[i])%Q.

Definition strict_trough (data : list Q) (radius : Z) (margin : Q) (i : Z)
  : Prop :=
  forall j, i - radius <= j <= i + radius -> j <> i ->
            (data.[i] < data.[j] - margin)%Q.


(** All values of the sequence are equal. *)
Definition constant (data : list Q) : Prop :=
  forall i j, 0 <= i < len data -> 0 <= j < len data ->
              (data.[i] == data.[j])%Q.

(** [[(i, data[i]) for i in range(lo, hi)]] *)
Definition points (data : list Q) (lo hi : Z) : list extremum :=
  map (fun i => (i, data.[i])) (range lo hi).


(** * Properties *)

(** ** Comparisons *)

Lemma Qltb_lt (x y : Q) : (x <? y)%Q = true <-> (x < y)%Q.
Proof.
  unfold Qltb. rewrite negb_true_iff.
  split; intro H.
  - apply Qnot_le_lt. intro Hle. apply Qle_bool_iff in Hle. congruence.
  - destruct (Qle_bool y x) eqn:E; [|reflexivity].
    apply Qle_bool_iff in E. exfalso. apply (Qlt_not_le _ _ H E).
Qed.

Lemma Qltb_ge (x y : Q) : (x <? y)%Q = false <-> (y <= x)%Q.
Proof.
  unfold Qltb. rewrite negb_false_iff. apply Qle_bool_iff.
Qed.

Lemma Qgtb_lt (x y : Q) : (x >? y)%Q = true <-> (y < x)%Q.
Proof. apply Qltb_lt. Qed.

Lemma Qgeb_le (x y : Q) : (x >=? y)%Q = true <-> (y <= x)%Q.
Proof. apply Qle_bool_iff. Qed.

(** ** Ranges *)

Lemma in_range (a b i : Z) : In i (range a b) <-> a <= i < b.
Proof.
  unfold range. rewrite in_map_iff. split.
  - intros [k [<- Hk]]. apply in_seq in Hk. lia.
  - intros Hi. exists (Z.to_nat (i - a)). split; [lia|].
    apply in_seq. lia.
Qed.

Lemma NoDup_range (a b : Z) : NoDup (range a b).
Proof.
  unfold range. apply Injective_map_NoDup.
  - intros x y Hxy. lia.
  - apply seq_NoDup.
Qed.

Lemma length_range (a b : Z) : length (range a b) = Z.to_nat (b - a).
Proof. unfold range. now rewrite length_map, length_seq. Qed.

Lemma nth_error_range (a b : Z) (i : nat) :
  (i < Z.to_nat (b - a))%nat ->
  nth_error (range a b) i = Some (a + Z.of_nat i).
Proof.
  intros Hi. unfold range.
  rewrite nth_error_map.
  rewrite (nth_error_nth' _ 0%nat) by now rewrite length_seq.
  rewrite seq_nth by assumption. reflexivity.
Qed.

(** ** Loops that append *)

(** A loop whose body appends [g x] when [p x] holds builds a filtered
    map. *)
Lemma fold_left_append {A B : Type} (p : A -> bool) (g : A -> B)
    (l : list A) (acc : list B) :
  fold_left (fun acc x => if p x then acc ++ [g x] else acc) l acc
  = acc ++ map g (filter p l).
Proof.
  revert acc. induction l as [|x l IH]; intros acc; simpl.
  - now rewrite app_nil_r.
  - rewrite IH. destruct (p x); simpl; [|reflexivity].
    now rewrite <- app_assoc.
Qed.

(** A loop whose body keeps the accumulator or appends the current element
    only yields elements it was given. *)
Lemma fold_left_keep_or_append {A : Type} (step : list A -> A -> list A)
    (Hstep : forall acc e, step acc e = acc \/ step acc e = acc ++ [e])
    (l acc : list A) (x : A) :
  In x (fold_left step l acc) -> In x acc \/ In x l.
Proof.
  revert acc. induction l as [|e l IH]; intros acc Hin; simpl in *.
  - now left.
  - apply IH in Hin. destruct Hin as [Hin|Hin]; [|now right; right].
    destruct (Hstep acc e) as [E|E]; rewrite E in Hin.
    + now left.
    + apply in_app_or in Hin. destruct Hin as [Hin|[<-|[]]];
        [now left | now right; left].
Qed.

(** ** The quality filter is a filter *)

Lemma filter_all {A : Type} (p : A -> bool) (l : list A) :
  forallb p l = true -> filter p l = l.
Proof.
  induction l as [|x l IH]; simpl; [reflexivity|].
  intros H. apply andb_true_iff in H as [Hx Hl].
  rewrite Hx. f_equal. now apply IH.
Qed.

Lemma filter_by_quality_filter (extrema : list extremum) (data : list Q)
    (noise : Q) (is_minimum : bool) :
  _filter_by_quality extrema data noise is_minimum
  = filter (quality_ok data noise is_minimum) extrema.
Proof.
  unfold _filter_by_quality.
  destruct extrema as [|e l]; [reflexivity|].
  unfold quality_body.
  rewrite (fold_left_append (quality_ok data noise is_minimum)
             (fun e => (fst e, snd e))).
  simpl app. rewrite (map_ext _ (fun e => e)) by (now intros []).
  apply map_id.
Qed.

(** An extremum that passes the quality test with no tolerance passes it
    with every positive noise level. *)
Lemma quality_ok_tolerance (data : list Q) (noise : Q) (is_minimum : bool)
    (e : extremum) :
  (0 < noise)%Q ->
  quality_ok data 0 is_minimum e = true ->
  quality_ok data noise is_minimum e = true.
Proof.
  intros Hn. unfold quality_ok. destruct e as [idx val].
  destruct (slice data _ _) as [|x t]; [easy|].
  destruct is_minimum; unfold Qgeb; rewrite !Qle_bool_iff; intros H; lra.
Qed.

(** When the spaced-out extrema are the extrema of their local windows, the
    refinement ends after the spacing step, whatever the characteristics. *)
Lemma post_process_window_extrema (minima maxima : list extremum)
    (data : list Q) (c : characteristics) :
  let d := Z.max 2 (len data / 100) in
  let minima' := _remove_close_extrema (sorted_items (dict_of minima)) d in
  let maxima' := _remove_close_extrema (sorted_items (dict_of maxima)) d in
  forallb (quality_ok data 0 true) minima' = true ->
  forallb (quality_ok data 0 false) maxima' = true ->
  _post_process_results minima maxima data c = (minima', maxima').
Proof.
  intros d minima' maxima' Hmin Hmax.
  unfold _post_process_results. fold d. fold minima'. fold maxima'.
  destruct (get c noise_level 0 >? 0)%Q eqn:E; [|reflexivity].
  apply Qgtb_lt in E.
  rewrite !filter_by_quality_filter.
  f_equal; apply filter_all.
  - rewrite forallb_forall in *. intros e He.
    now apply quality_ok_tolerance, Hmin.
  - rewrite forallb_forall in *. intros e He.
    now apply quality_ok_tolerance, Hmax.
Qed.

(** ** Short sequences *)

(** C2: on a sequence of fewer than three values the entry point returns
    the pair of two empty lists, for every method and all keyword
    arguments, and raises nothing. *)
Theorem detect_extrema_short `{NumpySqrt} (data : list Q)
    (method : option string) (kw : kwargs) :
  (length data < 3)%nat ->
  detect_extrema data method kw = Ok ([], []).
Proof.
  intros Hlen. unfold detect_extrema.
  replace (len data <? 3) with true; [reflexivity|].
  symmetry. apply Z.ltb_lt. unfold len. lia.
Qed.

Lemma detect_extrema_short_witness :
  (length [1%Q; 2%Q] < 3)%nat
  /\ detect_extrema [1%Q; 2%Q] (Some "window"%string)
       (mk_kwargs (Some 0.5%Q) (Some (-4))) = Ok ([], []).
Proof.
  split; [simpl; lia|].
  apply (detect_extrema_short [1%Q; 2%Q]). simpl; lia.
Defined.

(** ** The scenario of the Simple strategy *)

(** C3: on [0,5,1,6,2,7,0] with threshold 0.0001 the Simple strategy finds
    the minima [(2,1),(4,2)] and the maxima [(1,5),(3,6),(5,7)], and a
    detection run with that method returns the same two lists. *)
Theorem detect_simple_scenario `{NumpySqrt} :
  _detect_simple scenario_data 0.0001%Q
  = ([(2, 1%Q); (4, 2%Q)], [(1, 5%Q); (3, 6%Q); (5, 7%Q)])
  /\ detect_extrema scenario_data (Some "simple"%string)
       (mk_kwargs (Some 0.0001%Q) None)
     = Ok ([(2, 1%Q); (4, 2%Q)], [(1, 5%Q); (3, 6%Q); (5, 7%Q)]).
Proof.
  assert (Hs : _detect_simple scenario_data 0.0001%Q
               = ([(2, 1%Q); (4, 2%Q)], [(1, 5%Q); (3, 6%Q); (5, 7%Q)]))
    by (vm_compute; reflexivity).
  split; [exact Hs|].
  unfold detect_extrema.
  change (len scenario_data <? 3) with false. cbv iota.
  change (dispatch "simple" scenario_data (mk_kwargs (Some 0.0001%Q) None))
    with (Ok (_detect_simple scenario_data 0.0001%Q)).
  rewrite Hs. unfold bind, fst, snd.
  rewrite post_process_window_extrema; [reflexivity| |]; vm_compute; reflexivity.
Qed.

(** ** The threshold filter *)

(** C7: with a positive maxima threshold the maxima kept are exactly those
    with value at least the threshold, in their original order, and with
    threshold zero the maxima are returned unchanged; with a minima
    threshold below 999 the minima kept are exactly those with value at most
    the threshold, in their original order, and from 999 on the minima are
    returned unchanged. *)
Theorem apply_threshold_filter_spec (minima maxima : list extremum)
    (max_threshold min_threshold : Q) :
  let r := apply_threshold_filter minima maxima max_threshold min_threshold in
  ((0 < max_threshold)%Q ->
     snd r = filter (fun e => Qle_bool max_threshold (snd e)) maxima
     /\ Forall (fun e => (max_threshold <= snd e)%Q) (snd r))
  /\ ((max_threshold == 0)%Q -> snd r = maxima)
  /\ ((min_threshold < 999)%Q ->
        fst r = filter (fun e => Qle_bool (snd e) min_threshold) minima
        /\ Forall (fun e => (snd e <= min_threshold)%Q) (fst r))
  /\ ((999 <= min_threshold)%Q -> fst r = minima).
Proof.
  unfold apply_threshold_filter; simpl.
  split; [|split; [|split]]; intros H.
  - apply Qgtb_lt in H. rewrite H. split; [reflexivity|].
    apply Forall_forall. intros e He. apply filter_In in He as [_ He].
    now apply Qgeb_le in He.
  - destruct (max_threshold >? 0)%Q eqn:E; [|reflexivity].
    apply Qgtb_lt in E. rewrite H in E. now apply Qlt_irrefl in E.
  - apply Qltb_lt in H. rewrite H. split; [reflexivity|].
    apply Forall_forall. intros e He. apply filter_In in He as [_ He].
    now apply Qle_bool_iff in He.
  - apply Qltb_ge in H. now rewrite H.
Qed.

Lemma apply_threshold_filter_spec_witness :
  apply_threshold_filter [(2, 1%Q); (4, 2%Q)] [(1, 5%Q); (3, 6%Q); (5, 7%Q)]
    6%Q 1%Q
  = ([(2, 1%Q)], [(3, 6%Q); (5, 7%Q)])
  /\ apply_threshold_filter [(2, 1%Q); (4, 2%Q)] [(1, 5%Q); (3, 6%Q)] 0%Q 999%Q
     = ([(2, 1%Q); (4, 2%Q)], [(1, 5%Q); (3, 6%Q)]).
Proof.
  split.
  - destruct (apply_threshold_filter_spec
                [(2, 1%Q); (4, 2%Q)] [(1, 5%Q); (3, 6%Q); (5, 7%Q)] 6%Q 1%Q)
      as (Hmax & _ & Hmin & _).
    destruct Hmax as [Hmax _]; [reflexivity|].
    destruct Hmin as [Hmin _]; [reflexivity|].
    rewrite (surjective_pairing (apply_threshold_filter _ _ _ _)).
    rewrite Hmax, Hmin. reflexivity.
  - destruct (apply_threshold_filter_spec
                [(2, 1%Q); (4, 2%Q)] [(1, 5%Q); (3, 6%Q)] 0%Q 999%Q)
      as (_ & Hmax & _ & Hmin).
    rewrite (surjective_pairing (apply_threshold_filter _ _ _ _)).
    rewrite Hmax, Hmin; [reflexivity| |]; vm_compute; congruence.
Defined.

(** ** Minimum-distance suppression *)

Lemma gap_ge_trans (d : Z) : 0 <= d -> Transitive (gap_ge d).
Proof. unfold gap_ge. intros Hd a b c Hab Hbc. lia. Qed.

Lemma Sorted_snoc {A : Type} (R : A -> A -> Prop) (pre : list A) (x e : A) :
  Sorted R (pre ++ [x]) -> R x e -> Sorted R ((pre ++ [x]) ++ [e]).
Proof.
  intros Hs Hxe. induction pre as [|y pre IH]; simpl in *.
  - repeat constructor. exact Hxe.
  - inversion Hs as [|? ? Hs' Hhd]; subst.
    constructor; [now apply IH|].
    destruct pre; simpl in *; inversion Hhd; subst; now constructor.
Qed.

Lemma remove_close_body_sorted (d : Z) (acc : list extremum) (e : extremum) :
  acc <> [] -> Sorted (gap_ge d) acc ->
  remove_close_body d acc e <> []
  /\ Sorted (gap_ge d) (remove_close_body d acc e).
Proof.
  intros Hne Hs. unfold remove_close_body.
  destruct (_ >=? d) eqn:E; [|now split].
  split; [now destruct acc|].
  destruct (exists_last Hne) as (pre & x & ->).
  rewrite last_last in E.
  apply Sorted_snoc; [exact Hs|]. unfold gap_ge. lia.
Qed.

Lemma remove_close_sorted (extrema : list extremum) (d : Z) :
  Sorted (gap_ge d) (_remove_close_extrema extrema d).
Proof.
  unfold _remove_close_extrema. destruct extrema as [|first rest]; [constructor|].
  assert (H : [first] <> [] /\ Sorted (gap_ge d) [first])
    by (split; [discriminate | repeat constructor]).
  revert H. generalize [first] as acc.
  induction rest as [|e rest IH]; intros acc [Hne Hs]; simpl; [exact Hs|].
  apply IH. now apply remove_close_body_sorted.
Qed.

Lemma StronglySorted_filter {A : Type} (R : A -> A -> Prop) (p : A -> bool)
    (l : list A) :
  StronglySorted R l -> StronglySorted R (filter p l).
Proof.
  induction 1 as [|x l Hl IH Hx]; simpl; [constructor|].
  destruct (p x); [|exact IH].
  constructor; [exact IH|].
  apply Forall_forall. intros y Hy. apply filter_In in Hy as [Hy _].
  rewrite Forall_forall in Hx. now apply Hx.
Qed.

Lemma Sorted_min_gap (d : Z) (l : list extremum) :
  Sorted (gap_ge d) l -> min_gap d l.
Proof.
  intros Hs i. revert l Hs. induction i as [|i IH]; intros l Hs a b Ha Hb.
  - destruct l as [|x [|y l]]; simpl in *; try discriminate.
    injection Ha as <-. injection Hb as <-.
    inversion Hs as [|? ? _ Hhd]; subst. now inversion Hhd.
  - destruct l as [|x l]; [discriminate|].
    inversion Hs; subst. now apply (IH l).
Qed.

(** The two lists of the refinement step are strongly sorted by the gap
    relation: every later entry is at least [minDistance] after every
    earlier one. *)
Lemma post_process_strongly_sorted (minima maxima : list extremum)
    (data : list Q) (c : characteristics) :
  let r := _post_process_results minima maxima data c in
  StronglySorted (gap_ge (min_distance data)) (fst r)
  /\ StronglySorted (gap_ge (min_distance data)) (snd r).
Proof.
  assert (Ht : Transitive (gap_ge (min_distance data)))
    by (apply gap_ge_trans; unfold min_distance; lia).
  assert (Hs : forall l, StronglySorted (gap_ge (min_distance data))
             (_remove_close_extrema (sorted_items (dict_of l)) (min_distance data)))
    by (intros l; apply Sorted_StronglySorted;
        [exact Ht | apply remove_close_sorted]).
  unfold _post_process_results. fold (min_distance data).
  destruct (get c noise_level 0 >? 0)%Q; simpl.
  - rewrite !filter_by_quality_filter.
    split; apply StronglySorted_filter, Hs.
  - split; apply Hs.
Qed.

(** ** Idempotence of the refinement step *)

Lemma dict_set_absent (d : list (Z * Q)) (k : Z) (v : Q) :
  ~ In k (map fst d) -> dict_set d k v = d ++ [(k, v)].
Proof.
  induction d as [|[k' v'] d IH]; simpl; intros Hk; [reflexivity|].
  destruct (k' =? k) eqn:E.
  - apply Z.eqb_eq in E. exfalso. apply Hk. now left.
  - f_equal. apply IH. intros Hin. apply Hk. now right.
Qed.

Lemma dict_of_distinct_keys (l : list (Z * Q)) :
  NoDup (map fst l) -> dict_of l = l.
Proof.
  unfold dict_of.
  enough (Hgen : forall acc, NoDup (map fst (acc ++ l)) ->
            fold_left (fun d kv => dict_set d (fst kv) (snd kv)) l acc
            = acc ++ l) by (intros Hnd; now apply (Hgen [])).
  induction l as [|[k v] l IH]; intros acc Hnd; simpl.
  - now rewrite app_nil_r.
  - rewrite dict_set_absent.
    + rewrite IH; rewrite <- app_assoc; [reflexivity | exact Hnd].
    + rewrite map_app in Hnd. simpl in Hnd.
      apply NoDup_remove_2 in Hnd. intros Hin. apply Hnd.
      apply in_or_app. now left.
Qed.

Lemma strongly_sorted_gap_distinct (d : Z) (l : list extremum) :
  1 <= d -> StronglySorted (gap_ge d) l -> NoDup (map fst l).
Proof.
  intros Hd. induction 1 as [|x l Hl IH Hx]; simpl; constructor; [|exact IH].
  intros Hin. apply in_map_iff in Hin as (y & Hxy & Hy).
  rewrite Forall_forall in Hx. specialize (Hx y Hy). unfold gap_ge in Hx. lia.
Qed.

Lemma sorted_items_sorted (d : Z) (l : list extremum) :
  1 <= d -> Sorted (gap_ge d) l -> sorted_items l = l.
Proof.
  intros Hd. unfold sorted_items.
  induction 1 as [|x l Hl IH Hx]; simpl; [reflexivity|].
  rewrite IH. destruct Hx as [|y l Hxy]; simpl; [reflexivity|].
  unfold tuple_le. unfold gap_ge in Hxy.
  replace (fst x <? fst y) with true; [reflexivity|].
  symmetry. apply Z.ltb_lt. lia.
Qed.

Lemma remove_close_fold_sorted (d : Z) (rest pre : list extremum)
    (x : extremum) :
  Sorted (gap_ge d) (x :: rest) ->
  fold_left (remove_close_body d) rest (pre ++ [x]) = pre ++ x :: rest.
Proof.
  revert pre x. induction rest as [|e rest IH]; intros pre x Hs; simpl.
  - reflexivity.
  - inversion Hs as [|? ? Hs' Hhd]; subst. inversion Hhd as [|? ? Hxe]; subst.
    unfold remove_close_body at 2. rewrite last_last.
    unfold gap_ge in Hxe.
    replace (fst e - fst x >=? d) with true by (symmetry; lia).
    rewrite (IH (pre ++ [x]) e Hs'). now rewrite <- app_assoc.
Qed.

Lemma remove_close_sorted_id (d : Z) (l : list extremum) :
  Sorted (gap_ge d) l -> _remove_close_extrema l d = l.
Proof.
  intros Hs. destruct l as [|x rest]; [reflexivity|].
  exact (remove_close_fold_sorted d rest [] x Hs).
Qed.

Lemma filter_twice {A : Type} (p : A -> bool) (l : list A) :
  filter p (filter p l) = filter p l.
Proof.
  apply filter_all, forallb_forall.
  intros x Hx. now apply filter_In in Hx.
Qed.

(** On a list that is already spaced out, the first two stages of the
    refinement step change nothing. *)
Lemma dedup_and_spacing_id (data : list Q) (l : list extremum) :
  StronglySorted (gap_ge (min_distance data)) l ->
  _remove_close_extrema (sorted_items (dict_of l)) (min_distance data) = l.
Proof.
  intros Hs.
  assert (Hd : 1 <= min_distance data) by (unfold min_distance; lia).
  rewrite dict_of_distinct_keys
    by (now apply (strongly_sorted_gap_distinct (min_distance data))).
  apply StronglySorted_Sorted in Hs.
  rewrite (sorted_items_sorted (min_distance data)) by assumption.
  now apply remove_close_sorted_id.
Qed.

(** C5: the refinement step is idempotent: applied to its own output, with
    the same sequence and the same characteristics, it returns that output
    unchanged. *)
Theorem post_process_idempotent (minima maxima : list extremum)
    (data : list Q) (c : characteristics) :
  let r := _post_process_results minima maxima data c in
  _post_process_results (fst r) (snd r) data c = r.
Proof.
  intros r.
  destruct (post_process_strongly_sorted minima maxima data c) as [Hm HM].
  fold r in Hm, HM.
  unfold _post_process_results at 1. fold (min_distance data).
  rewrite !dedup_and_spacing_id by assumption.
  subst r. unfold _post_process_results. fold (min_distance data).
  destruct (get c noise_level 0 >? 0)%Q; simpl; [|reflexivity].
  rewrite !filter_by_quality_filter, !filter_twice. reflexivity.
Qed.

(** ** The manual search *)

Section Snap.

Variable data : list Q.

(** [R x y]: the value [y] is at least as extreme as [x]; [better y x]
    is the test of the loop, "[y] is strictly more extreme than [x]". *)
Variable R : Q -> Q -> Prop.
Variable better : Q -> Q -> bool.
Hypothesis R_refl : forall x, R x x.
Hypothesis R_trans : forall x y z, R x y -> R y z -> R x z.
Hypothesis better_true : forall y x, better y x = true -> R x y.
Hypothesis better_false : forall y x, better y x = false -> R y x.

Let step (best : extremum) (i : Z) : extremum :=
  if better data.[i] (snd best) then (i, data.[i]) else best.

Lemma snap_loop (l : list Z) (best : extremum) :
  let r := fold_left step l best in
  (r = best \/ In (fst r) l /\ snd r = data.[fst r])
  /\ R (snd best) (snd r)
  /\ forall j, In j l -> R data.[j] (snd r).
Proof.
  revert best. induction l as [|i l IH]; intros best; simpl.
  - repeat split; [now left | apply R_refl | contradiction].
  - specialize (IH (step best i)).
    destruct IH as (Hr & Hbest & Hall).
    assert (Hstep : R (snd best) (snd (step best i))
                    /\ R data.[i] (snd (step best i))
                    /\ (step best i = best
                        \/ step best i = (i, data.[i]))).
    { unfold step. destruct (better data.[i] (snd best)) eqn:E; simpl.
      - repeat split; [now apply better_true | apply R_refl | now right].
      - repeat split; [apply R_refl | now apply better_false | now left]. }
    destruct Hstep as (Hs1 & Hs2 & Hs3).
    repeat split.
    + destruct Hr as [Hr|[Hr1 Hr2]].
      * destruct Hs3 as [Hs3|Hs3]; rewrite Hr, Hs3; [now left|].
        right. simpl. split; [now left | reflexivity].
      * right. split; [now right | exact Hr2].
    + eapply R_trans; eassumption.
    + intros j [<-|Hj]; [|now apply Hall].
      eapply R_trans; eassumption.
Qed.

End Snap.

Lemma getitem_in_range (data : list Q) (a : Z) :
  0 <= a < len data -> getitem data a = Ok data.[a].
Proof.
  intros Ha. unfold getitem.
  replace (a <? 0) with false by (symmetry; lia).
  replace (0 <=? a) with true by (symmetry; lia).
  replace (a <? len data) with true by (symmetry; lia).
  reflexivity.
Qed.

Lemma snap_max_window (data : list Q) (a : Z) :
  0 <= a < len data ->
  exists e, snap_max data a = Ok e /\ window_maximum data a e.
Proof.
  intros Ha. unfold snap_max. rewrite getitem_in_range by assumption.
  simpl bind. eexists. split; [reflexivity|].
  replace (a + 10 + 1) with (a + 11) by lia.
  match goal with |- window_maximum _ _ (fold_left ?f ?l ?b) =>
    pose proof (snap_loop data Qle Qgtb Qle_refl Qle_trans
                  (fun y x H => Qlt_le_weak _ _ (proj1 (Qgtb_lt y x) H))
                  (fun y x H => proj1 (Qltb_ge x y) H) l b) as Hloop;
    cbv beta zeta in Hloop; change (fold_left _ l b) with (fold_left f l b) in Hloop;
    set (r := fold_left f l b) in *; destruct Hloop as (Hr & Hbest & Hall)
  end.
  simpl in Hbest.
  unfold window_maximum, in_snap_window.
  destruct Hr as [Hr|[Hin Hval]].
  - rewrite Hr. simpl. repeat split; try lia.
    intros j Hj. rewrite Hr in Hall. now apply Hall, in_range.
  - apply in_range in Hin. repeat split; try lia; [exact Hval|].
    intros j Hj. now apply Hall, in_range.
Qed.

Lemma snap_min_window (data : list Q) (a : Z) :
  0 <= a < len data ->
  exists e, snap_min data a = Ok e /\ window_minimum data a e.
Proof.
  intros Ha. unfold snap_min. rewrite getitem_in_range by assumption.
  simpl bind. eexists. split; [reflexivity|].
  replace (a + 10 + 1) with (a + 11) by lia.
  match goal with |- window_minimum _ _ (fold_left ?f ?l ?b) =>
    pose proof (snap_loop data (fun x y => Qle y x) Qltb
                  Qle_refl (fun x y z H1 H2 => Qle_trans _ _ _ H2 H1)
                  (fun y x H => Qlt_le_weak _ _ (proj1 (Qltb_lt y x) H))
                  (fun y x H => proj1 (Qltb_ge y x) H) l b) as Hloop;
    cbv beta zeta in Hloop; change (fold_left _ l b) with (fold_left f l b) in Hloop;
    set (r := fold_left f l b) in *; destruct Hloop as (Hr & Hbest & Hall)
  end.
  simpl in Hbest.
  unfold window_minimum, in_snap_window.
  destruct Hr as [Hr|[Hin Hval]].
  - rewrite Hr. simpl. repeat split; try lia.
    intros j Hj. rewrite Hr in Hall. now apply Hall, in_range.
  - apply in_range in Hin. repeat split; try lia; [exact Hval|].
    intros j Hj. now apply Hall, in_range.
Qed.

Lemma mem_true_In (data : list Q) (e : extremum) (l : list extremum) :
  (forall x, In x l -> snd x = data.[fst x]) ->
  snd e = data.[fst e] ->
  mem e l = true -> In e l.
Proof.
  intros Hl He Hmem. unfold mem in Hmem.
  apply existsb_exists in Hmem as (x & Hx & Heq).
  apply andb_true_iff in Heq as [Hidx _]. apply Z.eqb_eq in Hidx.
  replace e with x; [exact Hx|].
  specialize (Hl x Hx).
  destruct x as [i v], e as [i' v']; simpl in *. now subst.
Qed.

Section SnapAll.

Variable data : list Q.
Variable snap : Z -> result extremum.
Variable P : Z -> extremum -> Prop.
Hypothesis snap_ok :
  forall a, 0 <= a < len data -> exists e, snap a = Ok e /\ P a e.
Hypothesis P_value : forall a e, P a e -> snd e = data.[fst e].

Lemma snap_all_spec (selected : list selection) (found : list extremum) :
  (forall s, In s selected -> 0 <= selected_idx_of s < len data) ->
  (forall x, In x found -> snd x = data.[fst x]) ->
  exists out,
    snap_all snap selected found = Ok out
    /\ (forall x, In x found -> In x out)
    /\ (forall s, In s selected -> exists e, In e out /\ P (selected_idx_of s) e)
    /\ (forall e, In e out ->
          In e found \/ exists s, In s selected /\ P (selected_idx_of s) e).
Proof.
  revert found. induction selected as [|s rest IH]; intros found Hvalid Hfound.
  - exists found. simpl. repeat split; try tauto; now intros s [].
  - simpl. destruct (snap_ok (selected_idx_of s)) as (e & He & HP);
      [apply Hvalid; now left|].
    rewrite He. simpl bind.
    set (found' := if mem e found then found else found ++ [e]).
    assert (Hsub : forall x, In x found -> In x found').
    { intros x Hx. unfold found'. destruct (mem e found); [exact Hx|].
      apply in_or_app. now left. }
    assert (Hval : forall x, In x found' -> snd x = data.[fst x]).
    { intros x Hx. unfold found' in Hx. destruct (mem e found);
        [now apply Hfound|].
      apply in_app_or in Hx as [Hx|[<-|[]]];
        [now apply Hfound | now apply (P_value _ _ HP)]. }
    assert (Hin : In e found').
    { unfold found'. destruct (mem e found) eqn:E.
      - apply (mem_true_In data); [exact Hfound | | exact E].
        now apply (P_value _ _ HP).
      - apply in_or_app. right. now left. }
    assert (Hback : forall x, In x found' -> In x found \/ x = e).
    { intros x Hx. unfold found' in Hx. destruct (mem e found);
        [now left|].
      apply in_app_or in Hx as [Hx|[<-|[]]]; [now left | now right]. }
    destruct (IH found') as (out & Hout & H1 & H2 & H3);
      [intros s' Hs'; apply Hvalid; now right | exact Hval|].
    exists out. split; [exact Hout|]. repeat split.
    + intros x Hx. now apply H1, Hsub.
    + intros s' [<-|Hs'].
      * exists e. split; [now apply H1 | exact HP].
      * now apply H2.
    + intros x Hx. destruct (H3 x Hx) as [Hx'|(s' & Hs' & HPs')].
      * destruct (Hback x Hx') as [Hf| ->]; [now left|].
        right. exists s. split; [now left | exact HP].
      * right. exists s'. split; [now right | exact HPs'].
Qed.

End SnapAll.

(** C6: when every selected index is an index of the sequence, the manual
    search returns, and for every selection it returns a pair whose index
    lies in the window [max(0, a-10), min(length, a+11)), hence within 10
    of [a], and whose value is the greatest value of that window for a
    selected maximum and the least value of that window for a selected
    minimum; it returns no other pairs. *)
Theorem find_extrema_around_selections_spec (data : list Q)
    (selected_maxima selected_minima : list selection) :
  (forall s, In s selected_maxima -> 0 <= selected_idx_of s < len data) ->
  (forall s, In s selected_minima -> 0 <= selected_idx_of s < len data) ->
  exists minima maxima,
    find_extrema_around_selections data selected_maxima selected_minima
    = Ok (minima, maxima)
    /\ (forall s, In s selected_maxima ->
          exists e, In e maxima /\ window_maximum data (selected_idx_of s) e
                    /\ Z.abs (fst e - selected_idx_of s) <= 10)
    /\ (forall s, In s selected_minima ->
          exists e, In e minima /\ window_minimum data (selected_idx_of s) e
                    /\ Z.abs (fst e - selected_idx_of s) <= 10)
    /\ (forall e, In e maxima ->
          exists s, In s selected_maxima
                    /\ window_maximum data (selected_idx_of s) e)
    /\ (forall e, In e minima ->
          exists s, In s selected_minima
                    /\ window_minimum data (selected_idx_of s) e).
Proof.
  intros Hmax Hmin. unfold find_extrema_around_selections.
  destruct (snap_all_spec data (snap_max data) (window_maximum data)
              (snap_max_window data) (fun a e H => proj1 (proj2 H))
              selected_maxima [] Hmax)
    as (maxima & -> & _ & HM1 & HM2); [now intros x []|].
  destruct (snap_all_spec data (snap_min data) (window_minimum data)
              (snap_min_window data) (fun a e H => proj1 (proj2 H))
              selected_minima [] Hmin)
    as (minima & -> & _ & Hm1 & Hm2); [now intros x []|].
  exists minima, maxima. simpl. split; [reflexivity|]. repeat split.
  - intros s Hs. destruct (HM1 s Hs) as (e & He & HP).
    exists e. split; [exact He|]. split; [exact HP|].
    destruct HP as (Hw & _). unfold in_snap_window in Hw. lia.
  - intros s Hs. destruct (Hm1 s Hs) as (e & He & HP).
    exists e. split; [exact He|]. split; [exact HP|].
    destruct HP as (Hw & _). unfold in_snap_window in Hw. lia.
  - intros e He. destruct (HM2 e He) as [[]|H]. exact H.
  - intros e He. destruct (Hm2 e He) as [[]|H]. exact H.
Qed.

(** ** Stable sorting *)

Section StableSort.

Context {A : Type}.
Variable before : A -> A -> bool.

Lemma insert_perm (x : A) (l : list A) :
  Permutation (insert before x l) (x :: l).
Proof.
  induction l as [|y l IH]; simpl; [reflexivity|].
  destruct (before x y); [reflexivity|].
  rewrite IH. apply perm_swap.
Qed.

Lemma stable_sort_perm (l : list A) : Permutation (stable_sort before l) l.
Proof.
  induction l as [|x l IH]; simpl; [reflexivity|].
  rewrite insert_perm. now constructor.
Qed.

Lemma stable_sort_In (x : A) (l : list A) :
  In x (stable_sort before l) <-> In x l.
Proof.
  split; apply Permutation_in;
    [apply stable_sort_perm | symmetry; apply stable_sort_perm].
Qed.

Lemma stable_sort_length (l : list A) :
  length (stable_sort before l) = length l.
Proof. apply Permutation_length, stable_sort_perm. Qed.

(** Elements that may pairwise stay in front of each other (equal keys)
    keep their original order. *)
Lemma insert_stable (p : A -> bool) (x : A) (l : list A) :
  (forall a b, p a = true -> p b = true -> before a b = true) ->
  filter p (insert before x l) = filter p (x :: l).
Proof.
  intros Hp. induction l as [|y l IH]; simpl; [reflexivity|].
  destruct (before x y) eqn:E; [reflexivity|].
  simpl. rewrite IH. simpl.
  destruct (p x) eqn:Ex, (p y) eqn:Ey; try reflexivity.
  rewrite (Hp x y Ex Ey) in E. discriminate.
Qed.

Lemma stable_sort_stable (p : A -> bool) (l : list A) :
  (forall a b, p a = true -> p b = true -> before a b = true) ->
  filter p (stable_sort before l) = filter p l.
Proof.
  intros Hp. induction l as [|x l IH]; simpl; [reflexivity|].
  rewrite insert_stable by assumption. simpl. now rewrite IH.
Qed.

Hypothesis before_total : forall x y, before x y = false -> before y x = true.
Hypothesis before_trans :
  forall x y z, before x y = true -> before y z = true -> before x z = true.

Lemma insert_sorted (x : A) (l : list A) :
  Sorted (fun a b => before a b = true) l ->
  Sorted (fun a b => before a b = true) (insert before x l).
Proof.
  induction 1 as [|y l Hl IH Hy]; simpl; [repeat constructor|].
  destruct (before x y) eqn:E.
  - repeat constructor; assumption.
  - constructor; [exact IH|].
    destruct Hy as [|z l Hyz]; simpl.
    + constructor. now apply before_total.
    + destruct (before x z); constructor;
        [now apply before_total | assumption].
Qed.

Lemma stable_sort_sorted (l : list A) :
  StronglySorted (fun a b => before a b = true) (stable_sort before l).
Proof.
  apply Sorted_StronglySorted.
  - intros x y z. apply before_trans.
  - induction l as [|x l IH]; simpl; [constructor|].
    now apply insert_sorted.
Qed.

End StableSort.

Lemma StronglySorted_impl {A : Type} (R R' : A -> A -> Prop) (l : list A) :
  (forall a b, R a b -> R' a b) -> StronglySorted R l -> StronglySorted R' l.
Proof.
  intros HR. induction 1 as [|a t _ IH Ha]; constructor; [exact IH|].
  eapply Forall_impl; [|exact Ha]. intros b. apply HR.
Qed.

Lemma sorted_by_key_sorted {A : Type} (key : A -> Z) (l : list A) :
  StronglySorted (fun a b => key a <= key b) (sorted_by_key key l).
Proof.
  unfold sorted_by_key.
  apply StronglySorted_impl with (R := fun a b => (key a <=? key b) = true).
  - intros a b. apply Z.leb_le.
  - apply stable_sort_sorted; intros; lia.
Qed.

Lemma sorted_by_key_reverse_sorted {A : Type} (key : A -> Q) (l : list A) :
  StronglySorted (fun a b => (key b <= key a)%Q) (sorted_by_key_reverse key l).
Proof.
  unfold sorted_by_key_reverse.
  apply StronglySorted_impl
    with (R := fun a b => Qle_bool (key b) (key a) = true).
  - intros a b. apply Qle_bool_iff.
  - apply stable_sort_sorted.
    + intros x y Hxy. apply Qle_bool_iff.
      apply Qlt_le_weak, Qnot_le_lt. intros Hle.
      apply Qle_bool_iff in Hle. congruence.
    + intros x y z Hxy Hyz. apply Qle_bool_iff.
      apply Qle_bool_iff in Hxy, Hyz. now apply (Qle_trans _ (key y)).
Qed.

(** ** The count filter *)

Lemma top_by_abs_largest (l : list extremum) (limit : Z) :
  0 < limit < len l -> largest_by_abs l limit (top_by_abs l limit).
Proof.
  intros Hlim. unfold top_by_abs.
  replace ((limit >? 0) && (len l >? limit)) with true
    by (symmetry; apply andb_true_iff; split; lia).
  exists (skipn (Z.to_nat limit) (sorted_by_abs_desc l)).
  rewrite firstn_skipn. repeat split.
  - unfold len in *. rewrite length_firstn.
    unfold sorted_by_abs_desc, sorted_by_key_reverse.
    rewrite stable_sort_length. lia.
  - apply stable_sort_perm.
  - apply (sorted_by_key_reverse_sorted (fun x : extremum => Qabs (snd x))).
  - intros k. apply stable_sort_stable.
    intros a b Ha Hb. apply Qeq_bool_iff in Ha, Hb.
    apply Qle_bool_iff. rewrite Ha, Hb. apply Qle_refl.
Qed.

Lemma alternating_family_names (method : string) :
  alternating_family method = true
  <-> method = "alternating"%string \/ method = "enhanced"%string
      \/ method = "strict"%string.
Proof.
  unfold alternating_family.
  rewrite !orb_true_iff, !String.eqb_eq. tauto.
Qed.

(** C8: the count filter returns both lists unchanged when the method is
    alternating, enhanced or strict; for any other method, when
    maxCountLimit is positive and smaller than the number of maxima it
    keeps exactly the maxCountLimit maxima of largest absolute value
    (a stable choice), and likewise for the minima with minCountLimit.
    With maxCountLimit 1, maxima [(1,5),(3,6),(5,7)] and method simple the
    maxima returned are [(5,7)]. *)
Theorem filter_results_by_count_spec (minima maxima : list extremum)
    (max_count_limit min_count_limit : Z) (method : string) :
  let r := filter_results_by_count minima maxima
             max_count_limit min_count_limit method in
  ((method = "alternating"%string \/ method = "enhanced"%string
    \/ method = "strict"%string) -> r = (minima, maxima))
  /\ (~ (method = "alternating"%string \/ method = "enhanced"%string
         \/ method = "strict"%string) ->
        (0 < max_count_limit < len maxima ->
           largest_by_abs maxima max_count_limit (snd r))
        /\ (0 < min_count_limit < len minima ->
              largest_by_abs minima min_count_limit (fst r)))
  /\ snd (filter_results_by_count minima [(1, 5%Q); (3, 6%Q); (5, 7%Q)]
            1 min_count_limit "simple")
     = [(5, 7%Q)].
Proof.
  simpl. unfold filter_results_by_count. split; [|split].
  - intros Hm. apply alternating_family_names in Hm. now rewrite Hm.
  - intros Hm. rewrite <- alternating_family_names in Hm.
    apply not_true_is_false in Hm. rewrite Hm. simpl.
    split; apply top_by_abs_largest.
  - reflexivity.
Qed.

Lemma filter_results_by_count_spec_witness :
  filter_results_by_count [(2, 1%Q); (4, 2%Q)] [(1, 5%Q); (3, 6%Q)] 1 1 "strict"
  = ([(2, 1%Q); (4, 2%Q)], [(1, 5%Q); (3, 6%Q)])
  /\ largest_by_abs [(1, 5%Q); (3, (-6)%Q); (5, 5%Q)] 2
       (snd (filter_results_by_count [(2, 1%Q)]
               [(1, 5%Q); (3, (-6)%Q); (5, 5%Q)] 2 0 "window")).
Proof.
  split.
  - apply (filter_results_by_count_spec
             [(2, 1%Q); (4, 2%Q)] [(1, 5%Q); (3, 6%Q)] 1 1 "strict").
    right; right; reflexivity.
  - apply (filter_results_by_count_spec
             [(2, 1%Q)] [(1, 5%Q); (3, (-6)%Q); (5, 5%Q)] 2 0 "window").
    + intros [H|[H|H]]; discriminate H.
    + vm_compute. split; reflexivity.
Defined.

(** ** Pairing *)

Lemma fold_left_append_all {A B : Type} (f : list B -> A -> list B)
    (g : A -> B) (l : list A) (acc : list B) :
  (forall acc x, f acc x = acc ++ [g x]) ->
  fold_left f l acc = acc ++ map g l.
Proof.
  intros Hf. revert acc. induction l as [|x l IH]; intros acc; simpl.
  - now rewrite app_nil_r.
  - rewrite IH, Hf, <- app_assoc. reflexivity.
Qed.

Lemma pair_up_map (maxima minima : list extremum) :
  pair_up maxima minima
  = map (pair_at (sorted_by_key fst maxima) (sorted_by_key fst minima))
        (range 0 (Z.min (len (sorted_by_key fst maxima))
                        (len (sorted_by_key fst minima)))).
Proof.
  unfold pair_up.
  rewrite fold_left_append_all
    with (g := pair_at (sorted_by_key fst maxima) (sorted_by_key fst minima));
    [reflexivity|].
  intros acc i. unfold pair_at, extremum.
  destruct (nth (Z.to_nat i) (sorted_by_key fst maxima) (0, 0%Q)).
  destruct (nth (Z.to_nat i) (sorted_by_key fst minima) (0, 0%Q)).
  reflexivity.
Qed.

Lemma sorted_by_key_index (l : list extremum) :
  sorted_by_index l (sorted_by_key fst l).
Proof.
  repeat split.
  - apply stable_sort_perm.
  - apply (sorted_by_key_sorted (fst : extremum -> Z)).
  - intros k. apply stable_sort_stable.
    intros a b Ha Hb. apply Z.eqb_eq in Ha, Hb. apply Z.leb_le. lia.
Qed.

(** C9: the pairing produces exactly min(len(maxima), len(minima)) pairs;
    the pair number [i] (counted from 1) combines the [i]-th maximum and
    the [i]-th minimum in ascending order of index, and the difference of
    every pair is its maximum value minus its minimum value.  The method
    stores these pairs when both lists are non-empty; when one of them is
    empty there is no pair, and the method leaves the state as it was. *)
Theorem calculate_differences_spec (maxima minima : list extremum) :
  let pairs := pair_up maxima minima in
  exists maxima_sorted minima_sorted : list extremum,
    sorted_by_index maxima maxima_sorted
    /\ sorted_by_index minima minima_sorted
    /\ length pairs = Nat.min (length maxima) (length minima)
    /\ (forall i : nat, (i < length pairs)%nat ->
          exists M m,
            nth_error maxima_sorted i = Some M
            /\ nth_error minima_sorted i = Some m
            /\ nth_error pairs i
               = Some (mk_pair (Z.of_nat i + 1) (fst M) (snd M)
                               (fst m) (snd m) (snd M - snd m)))
    /\ Forall (fun p => difference p = (max_value p - min_value p)%Q) pairs
    /\ forall g : gui, results g = Some (minima, maxima) ->
         (maxima <> [] -> minima <> [] ->
            calculate_differences g = mk_gui (results g) pairs)
         /\ (maxima = [] \/ minima = [] ->
               calculate_differences g = g /\ pairs = []).
Proof.
  intros pairs.
  exists (sorted_by_key fst maxima), (sorted_by_key fst minima).
  assert (Hlen : length pairs = Nat.min (length maxima) (length minima)).
  { unfold pairs. rewrite pair_up_map, length_map, length_range.
    unfold len, sorted_by_key.
    rewrite (stable_sort_length _ maxima), (stable_sort_length _ minima).
    unfold extremum. lia. }
  split; [apply sorted_by_key_index|].
  split; [apply sorted_by_key_index|].
  split; [exact Hlen|].
  split; [|split].
  - intros i Hi. rewrite Hlen in Hi.
    assert (HM : (i < length (sorted_by_key fst maxima))%nat)
      by (unfold sorted_by_key; rewrite stable_sort_length;
          unfold extremum in *; lia).
    assert (Hm : (i < length (sorted_by_key fst minima))%nat)
      by (unfold sorted_by_key; rewrite stable_sort_length;
          unfold extremum in *; lia).
    exists (nth i (sorted_by_key fst maxima) (0, 0%Q)).
    exists (nth i (sorted_by_key fst minima) (0, 0%Q)).
    split; [now apply nth_error_nth'|]. split; [now apply nth_error_nth'|].
    unfold pairs. rewrite pair_up_map, nth_error_map.
    rewrite nth_error_range by (unfold len; lia).
    simpl. unfold pair_at, extremum. now rewrite Nat2Z.id.
  - unfold pairs. rewrite pair_up_map.
    apply Forall_forall. intros p Hp.
    apply in_map_iff in Hp as (i & <- & _). reflexivity.
  - intros g Hg. unfold calculate_differences. rewrite Hg. split.
    + intros HM Hm. destruct maxima, minima; try congruence. reflexivity.
    + intros Hempty.
      assert (Hnil : pairs = []).
      { apply length_zero_iff_nil. rewrite Hlen.
        destruct Hempty as [-> | ->]; simpl; lia. }
      split; [|exact Hnil].
      destruct Hempty as [-> | ->]; [reflexivity|]. now destruct maxima.
Qed.

Lemma calculate_differences_spec_witness :
  calculate_differences
    (mk_gui (Some ([(2, 1%Q); (0, 2%Q)], [(5, 5%Q); (3, 6%Q); (1, 7%Q)])) [])
  = mk_gui (Some ([(2, 1%Q); (0, 2%Q)], [(5, 5%Q); (3, 6%Q); (1, 7%Q)]))
      [mk_pair 1 1 7 0 2 5; mk_pair 2 3 6 2 1 5].
Proof.
  destruct (calculate_differences_spec
              [(5, 5%Q); (3, 6%Q); (1, 7%Q)] [(2, 1%Q); (0, 2%Q)])
    as (_ & _ & _ & _ & _ & _ & _ & H).
  destruct (H (mk_gui (Some ([(2, 1%Q); (0, 2%Q)],
                             [(5, 5%Q); (3, 6%Q); (1, 7%Q)])) []) eq_refl)
    as [Hrun _].
  rewrite Hrun by discriminate. reflexivity.
Defined.

(** ** Minima and maxima never share an index *)

Section CandidateLoop.

(** A loop body that appends the current index to at most one of the two
    lists. *)
Variable step :
  list extremum * list extremum -> Z -> list extremum * list extremum.
Hypothesis step_one_list :
  forall acc i,
    step acc i = acc
    \/ (exists v, step acc i = (fst acc ++ [(i, v)], snd acc))
    \/ (exists v, step acc i = (fst acc, snd acc ++ [(i, v)])).

Lemma candidate_loop_disjoint (l : list Z)
    (acc : list extremum * list extremum) :
  NoDup l ->
  (forall i, In i l ->
     ~ In i (map fst (fst acc)) /\ ~ In i (map fst (snd acc))) ->
  index_disjoint acc ->
  index_disjoint (fold_left step l acc).
Proof.
  revert acc. induction l as [|i l IH]; intros acc Hnd Hfresh Hdis; simpl.
  - exact Hdis.
  - inversion Hnd as [|? ? Hi Hnd']; subst.
    destruct (Hfresh i (or_introl eq_refl)) as [Hi1 Hi2].
    apply IH; [exact Hnd'| |].
    + intros j Hj. destruct (Hfresh j (or_intror Hj)) as [Hj1 Hj2].
      assert (Hji : j <> i) by (intros ->; contradiction).
      destruct (step_one_list acc i) as [E|[[v E]|[v E]]]; rewrite E; simpl.
      * now split.
      * split; [|exact Hj2]. rewrite map_app, in_app_iff. simpl.
        intros [H|[H|[]]]; [contradiction | congruence].
      * split; [exact Hj1|]. rewrite map_app, in_app_iff. simpl.
        intros [H|[H|[]]]; [contradiction | congruence].
    + destruct (step_one_list acc i) as [E|[[v E]|[v E]]]; rewrite E.
      * exact Hdis.
      * intros j. simpl. rewrite map_app, in_app_iff. simpl.
        intros [Hj|[<-|[]]] Hj'; [now apply (Hdis j) | contradiction].
      * intros j. simpl. rewrite map_app, in_app_iff. simpl.
        intros Hj [Hj'|[<-|[]]]; [now apply (Hdis j) | contradiction].
Qed.

Lemma candidate_loop_range_disjoint (a b : Z) :
  index_disjoint (fold_left step (range a b) ([], [])).
Proof.
  apply candidate_loop_disjoint.
  - apply NoDup_range.
  - intros i _. simpl. tauto.
  - intros i [].
Qed.

End CandidateLoop.

Lemma simple_body_one_list (data : list Q) (t : Q) acc i :
  simple_body data t acc i = acc
  \/ (exists v, simple_body data t acc i = (fst acc ++ [(i, v)], snd acc))
  \/ (exists v, simple_body data t acc i = (fst acc, snd acc ++ [(i, v)])).
Proof.
  unfold simple_body. destruct acc as [minima maxima]. simpl.
  destruct (_ && _); [right; right; eauto|].
  destruct (_ && _); [right; left; eauto|]. now left.
Qed.

Lemma window_body_one_list (data : list Q) (w : Z) acc i :
  window_body data w acc i = acc
  \/ (exists v, window_body data w acc i = (fst acc ++ [(i, v)], snd acc))
  \/ (exists v, window_body data w acc i = (fst acc, snd acc ++ [(i, v)])).
Proof.
  unfold window_body. destruct acc as [minima maxima]. simpl.
  destruct (forallb _ _); [right; right; eauto|].
  destruct (forallb _ _); [right; left; eauto|]. now left.
Qed.

Lemma slope_body_one_list (data slopes : list Q) (t : Q) acc i :
  slope_body data slopes t acc i = acc
  \/ (exists v, slope_body data slopes t acc i = (fst acc ++ [(i, v)], snd acc))
  \/ (exists v, slope_body data slopes t acc i = (fst acc, snd acc ++ [(i, v)])).
Proof.
  unfold slope_body. destruct acc as [minima maxima]. simpl.
  destruct (Qabs _ <? t)%Q; [now left|].
  destruct (_ && _); [right; right; eauto|].
  destruct (_ && _); [right; left; eauto|]. now left.
Qed.

Lemma alternating_candidates_body_one_list (data : list Q) (t : Q) acc i :
  alternating_candidates_body data t acc i = acc
  \/ (exists v, alternating_candidates_body data t acc i
                = (fst acc ++ [(i, v)], snd acc))
  \/ (exists v, alternating_candidates_body data t acc i
                = (fst acc, snd acc ++ [(i, v)])).
Proof.
  unfold alternating_candidates_body. destruct acc as [minima maxima]. simpl.
  destruct (_ && _); [right; right; eauto|].
  destruct (_ && _); [right; left; eauto|]. now left.
Qed.

(** A point cannot pass both seven-point tests: its right neighbour would
    be both smaller and larger. *)
Lemma max_min_candidate_exclusive (data : list Q) (min_threshold : Q) (i : Z) :
  is_max_candidate data i = true ->
  is_min_candidate data min_threshold i = false.
Proof.
  unfold is_max_candidate, is_min_candidate. intros Hmax.
  destruct (data.[i] >? min_threshold)%Q; [reflexivity|].
  rewrite forallb_forall in Hmax.
  assert (Hin : In (i + 1) (range (i - 3) (i + 4))) by (apply in_range; lia).
  specialize (Hmax _ Hin).
  apply not_true_is_false. intros Hmin.
  rewrite forallb_forall in Hmin. specialize (Hmin _ Hin).
  replace (i + 1 =? i) with false in * by (symmetry; lia). simpl in *.
  apply negb_true_iff in Hmax, Hmin.
  unfold Qgeb in Hmax.
  assert (H1 : ~ (data.[i] <= data.[i + 1])%Q)
    by (intros H; apply Qle_bool_iff in H; congruence).
  assert (H2 : ~ (data.[i + 1] <= data.[i])%Q)
    by (intros H; apply Qle_bool_iff in H; congruence).
  lra.
Qed.

Lemma potential_body_one_list (data : list Q) (mt : Q) acc i :
  potential_body data mt acc i = acc
  \/ (exists v, potential_body data mt acc i = (fst acc ++ [(i, v)], snd acc))
  \/ (exists v, potential_body data mt acc i = (fst acc, snd acc ++ [(i, v)])).
Proof.
  unfold potential_body. destruct acc as [minima maxima]. simpl.
  destruct (is_max_candidate data i) eqn:E.
  - rewrite (max_min_candidate_exclusive data mt i E). right; right; eauto.
  - destruct (is_min_candidate data mt i); [right; left; eauto | now left].
Qed.

(** The three acceptance walks keep the accumulator or append the current
    candidate. *)
Lemma alternating_walk_body_keeps (t : Q) (acc : list tagged) (e : tagged) :
  alternating_walk_body t acc e = acc
  \/ alternating_walk_body t acc e = acc ++ [e].
Proof.
  unfold alternating_walk_body. destruct e as [[typ idx] val].
  destruct acc as [|x acc]; [now right|].
  destruct (negb _); [|now left].
  destruct (_ && _); [now right|].
  destruct (_ && _); [now right | now left].
Qed.

Lemma enhanced_walk_body_keeps (t mt : Q) (acc : list tagged) (e : tagged) :
  enhanced_walk_body t mt acc e = acc
  \/ enhanced_walk_body t mt acc e = acc ++ [e].
Proof.
  unfold enhanced_walk_body. destruct e as [[typ idx] val].
  destruct acc as [|x acc]; [now right|].
  destruct (last _ _) as [[last_type last_idx] last_val].
  destruct (negb _); [|now left].
  destruct (_ && _); [|now left].
  destruct (_ && _); [now right|].
  destruct (_ && _); [now right | now left].
Qed.

Lemma strict_walk_body_keeps (t mt : Q) (acc : list tagged) (e : tagged) :
  strict_walk_body t mt acc e = acc
  \/ strict_walk_body t mt acc e = acc ++ [e].
Proof.
  unfold strict_walk_body. destruct e as [[typ idx] val].
  destruct acc as [|x acc].
  - destruct (_ || _); [now right | now left].
  - destruct (last _ _) as [[last_type last_idx] last_val].
    destruct (negb _); [|now left].
    destruct (_ && _); [|now left].
    destruct (_ && _); [now right|].
    destruct (_ && _); [now right | now left].
Qed.

Lemma of_kind_index (k : kind) (l : list tagged) (i : Z) :
  In i (map fst (of_kind k l)) ->
  exists t, In t l /\ typ_of t = k /\ idx_of t = i.
Proof.
  unfold of_kind. rewrite map_map. simpl. intros Hin.
  apply in_map_iff in Hin as (t & <- & Ht).
  apply filter_In in Ht as [Ht Hk].
  exists t. repeat split; [exact Ht|].
  destruct (typ_of t), k; simpl in Hk; congruence.
Qed.

Lemma merge_tagged_kind (maxima minima : list extremum) (t : tagged) :
  In t (merge_tagged maxima minima) ->
  (typ_of t = KMax /\ In (idx_of t) (map fst maxima))
  \/ (typ_of t = KMin /\ In (idx_of t) (map fst minima)).
Proof.
  unfold merge_tagged. intros Hin.
  apply in_app_or in Hin as [Hin|Hin];
    apply in_map_iff in Hin as (e & <- & He); [left | right];
    (split; [reflexivity|]); apply in_map_iff; now exists e.
Qed.

Section Walk.

Variable walk : list tagged -> tagged -> list tagged.
Hypothesis walk_keeps :
  forall acc e, walk acc e = acc \/ walk acc e = acc ++ [e].

(** Splitting the accepted extrema by kind yields index-disjoint lists
    when the candidates were index-disjoint. *)
Lemma walk_disjoint (candidates : list extremum * list extremum) :
  index_disjoint candidates ->
  let accepted :=
    fold_left walk
      (sorted_by_key idx_of (merge_tagged (snd candidates) (fst candidates)))
      [] in
  index_disjoint (of_kind KMin accepted, of_kind KMax accepted).
Proof.
  intros Hdis accepted i Hmin Hmax. simpl in Hmin, Hmax.
  assert (Hfrom : forall t, In t accepted ->
            In t (merge_tagged (snd candidates) (fst candidates))).
  { intros t Ht. unfold accepted in Ht.
    apply (fold_left_keep_or_append walk walk_keeps) in Ht
      as [[]|Ht].
    unfold sorted_by_key in Ht. now apply stable_sort_In in Ht. }
  apply of_kind_index in Hmin as (t1 & Ht1 & Hk1 & Hi1).
  apply of_kind_index in Hmax as (t2 & Ht2 & Hk2 & Hi2).
  apply Hfrom, merge_tagged_kind in Ht1, Ht2.
  destruct Ht1 as [[Hk _]|[_ Hin1]]; [congruence|].
  destruct Ht2 as [[_ Hin2]|[Hk _]]; [|congruence].
  apply (Hdis i); congruence.
Qed.

End Walk.

Lemma index_disjoint_nil : index_disjoint ([], []).
Proof. intros i H _. exact H. Qed.

Lemma detect_simple_disjoint (data : list Q) (t : Q) :
  index_disjoint (_detect_simple data t).
Proof.
  unfold _detect_simple. destruct (len data <? 3); [apply index_disjoint_nil|].
  apply candidate_loop_range_disjoint, simple_body_one_list.
Qed.

Lemma detect_window_disjoint (data : list Q) (w : Z) :
  match _detect_window data w with
  | Ok r => index_disjoint r
  | Raise e => e = IndexError /\ w < 0
  end.
Proof.
  unfold _detect_window. destruct (len data <? w + 2); [apply index_disjoint_nil|].
  destruct (w <? 0) eqn:E; [split; [reflexivity | lia]|].
  apply candidate_loop_range_disjoint, window_body_one_list.
Qed.

Lemma detect_slope_disjoint (data : list Q) (t : Q) :
  index_disjoint (_detect_slope data t).
Proof.
  unfold _detect_slope. destruct (len data <? 4); [apply index_disjoint_nil|].
  apply candidate_loop_range_disjoint, slope_body_one_list.
Qed.

Lemma detect_alternating_disjoint (data : list Q) (t : Q) :
  index_disjoint (_detect_alternating data t).
Proof.
  unfold _detect_alternating. destruct (len data <? 5); [apply index_disjoint_nil|].
  pose proof (candidate_loop_range_disjoint _
                (alternating_candidates_body_one_list data t)
                2 (len data - 2)) as Hc.
  destruct (fold_left (alternating_candidates_body data t) _ _)
    as [all_minima all_maxima].
  exact (walk_disjoint _ (alternating_walk_body_keeps t) _ Hc).
Qed.

Lemma detect_enhanced_disjoint (data : list Q) (t : Q) :
  index_disjoint (_detect_enhanced data t).
Proof.
  unfold _detect_enhanced. destruct (len data <? 7); [apply index_disjoint_nil|].
  cbv zeta.
  match goal with |- context [potential_body data ?mt] =>
    pose proof (candidate_loop_range_disjoint _
                  (potential_body_one_list data mt) 3 (len data - 3)) as Hc;
    destruct (fold_left (potential_body data mt) _ _)
      as [potential_minima potential_maxima];
    exact (walk_disjoint _ (enhanced_walk_body_keeps t mt) _ Hc)
  end.
Qed.

Lemma detect_strict_disjoint (data : list Q) (t : Q) :
  index_disjoint (_detect_strict data t).
Proof.
  unfold _detect_strict. destruct (len data <? 7); [apply index_disjoint_nil|].
  cbv zeta.
  match goal with |- context [potential_body data ?mt] =>
    pose proof (candidate_loop_range_disjoint _
                  (potential_body_one_list data mt) 3 (len data - 3)) as Hc;
    destruct (fold_left (potential_body data mt) _ _)
      as [potential_minima potential_maxima];
    exact (walk_disjoint _ (strict_walk_body_keeps t mt) _ Hc)
  end.
Qed.

(** The refinement step only removes indices. *)

Lemma dict_set_keys (d : list (Z * Q)) (k : Z) (v : Q) (i : Z) :
  In i (map fst (dict_set d k v)) -> In i (map fst d) \/ i = k.
Proof.
  induction d as [|[k' v'] d IH]; simpl.
  - intros [<-|[]]. now right.
  - destruct (k' =? k); simpl; intros [<-|Hin]; auto.
    destruct (IH Hin); auto.
Qed.

Lemma dict_of_keys (l : list (Z * Q)) (i : Z) :
  In i (map fst (dict_of l)) -> In i (map fst l).
Proof.
  unfold dict_of.
  enough (Hgen : forall acc,
            In i (map fst (fold_left
                             (fun d kv => dict_set d (fst kv) (snd kv)) l acc)) ->
            In i (map fst acc) \/ In i (map fst l)).
  { intros Hin. destruct (Hgen [] Hin) as [[]|H]. exact H. }
  induction l as [|[k v] l IH]; intros acc Hin; simpl in *; [now left|].
  destruct (IH _ Hin) as [H|H]; [|now right; right].
  destruct (dict_set_keys _ _ _ _ H) as [H'| ->]; [now left | now right; left].
Qed.

Lemma remove_close_incl (l : list extremum) (d : Z) (x : extremum) :
  In x (_remove_close_extrema l d) -> In x l.
Proof.
  unfold _remove_close_extrema. destruct l as [|first rest]; [easy|].
  intros Hin.
  apply (fold_left_keep_or_append (remove_close_body d)) in Hin.
  - destruct Hin as [[<-|[]]|Hin]; [now left | now right].
  - intros acc e. unfold remove_close_body.
    destruct (_ >=? d); [now right | now left].
Qed.

Lemma refine_one_indices (l : list extremum) (d : Z) (i : Z) :
  In i (map fst (_remove_close_extrema (sorted_items (dict_of l)) d)) ->
  In i (map fst l).
Proof.
  intros Hin. apply in_map_iff in Hin as (x & <- & Hx).
  apply remove_close_incl in Hx.
  unfold sorted_items in Hx. apply stable_sort_In in Hx.
  apply dict_of_keys. now apply in_map.
Qed.

Lemma post_process_indices (minima maxima : list extremum) (data : list Q)
    (c : characteristics) (i : Z) :
  let r := _post_process_results minima maxima data c in
  (In i (map fst (fst r)) -> In i (map fst minima))
  /\ (In i (map fst (snd r)) -> In i (map fst maxima)).
Proof.
  unfold _post_process_results.
  destruct (get c noise_level 0 >? 0)%Q; simpl.
  - rewrite !filter_by_quality_filter.
    split; intros Hin; apply in_map_iff in Hin as (x & <- & Hx);
      apply filter_In in Hx as [Hx _];
      apply (refine_one_indices _ (Z.max 2 (len data / 100)));
      now apply in_map.
  - split; apply refine_one_indices.
Qed.

Lemma post_process_disjoint (r : list extremum * list extremum)
    (data : list Q) (c : characteristics) :
  index_disjoint r ->
  index_disjoint (_post_process_results (fst r) (snd r) data c).
Proof.
  intros Hdis i Hmin Hmax.
  apply (Hdis i); now apply (post_process_indices (fst r) (snd r) data c i).
Qed.

Lemma dispatch_disjoint `{NumpySqrt} (method : string) (data : list Q)
    (kw : kwargs) :
  match dispatch method data kw with
  | Ok r => index_disjoint r
  | Raise e => raise_cause kw e
  end.
Proof.
  unfold dispatch.
  destruct (String.eqb method "simple").
  { destruct (kw_window_size kw) eqn:E; simpl;
      [congruence | apply detect_simple_disjoint]. }
  destruct (String.eqb method "window").
  { pose proof (detect_window_disjoint data (window_size_of kw)) as Hw.
    destruct (_detect_window data (window_size_of kw)); [exact Hw|].
    destruct Hw as [-> Hw]. exact Hw. }
  destruct (String.eqb method "slope"); [apply detect_slope_disjoint|].
  destruct (String.eqb method "alternating");
    [apply detect_alternating_disjoint|].
  destruct (String.eqb method "enhanced"); [apply detect_enhanced_disjoint|].
  destruct (String.eqb method "strict");
    [apply detect_strict_disjoint | apply detect_enhanced_disjoint].
Qed.

(** C10: each of the six strategies returns minima and maxima with no
    index in common, and so does every detection run; the window strategy
    raises only for a negative window size, and a detection run raises only
    when the keyword arguments do not fit the chosen strategy. *)
Theorem strategies_index_disjoint `{NumpySqrt} (data : list Q)
    (threshold : Q) (window_size : Z) (method : option string) (kw : kwargs) :
  index_disjoint (_detect_simple data threshold)
  /\ match _detect_window data window_size with
     | Ok r => index_disjoint r
     | Raise e => e = IndexError /\ window_size < 0
     end
  /\ index_disjoint (_detect_slope data threshold)
  /\ index_disjoint (_detect_alternating data threshold)
  /\ index_disjoint (_detect_enhanced data threshold)
  /\ index_disjoint (_detect_strict data threshold)
  /\ match detect_extrema data method kw with
     | Ok r => index_disjoint r
     | Raise e => raise_cause kw e
     end.
Proof.
  split; [apply detect_simple_disjoint|].
  split; [apply detect_window_disjoint|].
  split; [apply detect_slope_disjoint|].
  split; [apply detect_alternating_disjoint|].
  split; [apply detect_enhanced_disjoint|].
  split; [apply detect_strict_disjoint|].
  unfold detect_extrema.
  destruct (len data <? 3); [apply index_disjoint_nil|].
  match goal with |- context [dispatch ?m data kw] =>
    pose proof (dispatch_disjoint m data kw) as Hd;
    destruct (dispatch m data kw) as [r|e]
  end; simpl; [|exact Hd].
  now apply post_process_disjoint.
Qed.

(** ** Spacing of the refined extrema *)

(** C4: in each of the two lists the refinement step produces, every two
    adjacent entries are at least max(2, floor(length/100)) indices apart;
    so are the two lists of every detection run, which raises only when the
    keyword arguments do not fit the chosen strategy. *)
Theorem post_process_min_distance `{NumpySqrt} (minima maxima : list extremum)
    (data : list Q) (c : characteristics)
    (method : option string) (kw : kwargs) :
  let d := Z.max 2 (len data / 100) in
  (min_gap d (fst (_post_process_results minima maxima data c))
   /\ min_gap d (snd (_post_process_results minima maxima data c)))
  /\ match detect_extrema data method kw with
     | Ok r => min_gap d (fst r) /\ min_gap d (snd r)
     | Raise e => raise_cause kw e
     end.
Proof.
  intros d. split.
  - destruct (post_process_strongly_sorted minima maxima data c) as [Hm HM].
    split; apply Sorted_min_gap, StronglySorted_Sorted; assumption.
  - unfold detect_extrema. destruct (len data <? 3).
    + split; intros [|i] a b Ha Hb; discriminate.
    + match goal with |- context [dispatch ?m data kw] =>
        pose proof (dispatch_disjoint m data kw) as Hd;
        destruct (dispatch m data kw) as [[m' M']|e]
      end; simpl; [|exact Hd].
      destruct (post_process_strongly_sorted m' M' data
                  (analyze_data_characteristics data)) as [Hm HM].
      split; apply Sorted_min_gap, StronglySorted_Sorted; assumption.
Qed.

Lemma post_process_min_distance_witness :
  gap_ge 2 (2, 1%Q) (4, 2%Q).
Proof.
  destruct (post_process_min_distance
              [(4, 2%Q); (2, 1%Q); (3, 0%Q)] [] scenario_data None
              None (mk_kwargs None None)) as [[Hmin _] _].
  apply (Hmin 0%nat); reflexivity.
Defined.

Lemma find_extrema_around_selections_spec_witness :
  exists minima maxima,
    find_extrema_around_selections scenario_data
      [(2, 2%Q, 1%Q)] [(3, 3%Q, 6%Q)]
    = Ok (minima, maxima)
    /\ (exists e, In e maxima /\ window_maximum scenario_data 2 e)
    /\ (exists e, In e minima /\ window_minimum scenario_data 3 e).
Proof.
  destruct (find_extrema_around_selections_spec scenario_data
              [(2, 2%Q, 1%Q)] [(3, 3%Q, 6%Q)])
    as (minima & maxima & Hrun & HM & Hm & _).
  - intros s [<-|[]]. vm_compute. split; congruence.
  - intros s [<-|[]]. vm_compute. split; congruence.
  - exists minima, maxima. split; [exact Hrun|]. split.
    + destruct (HM (2, 2%Q, 1%Q) (or_introl eq_refl)) as (e & He & Hw & _).
      now exists e.
    + destruct (Hm (3, 3%Q, 6%Q) (or_introl eq_refl)) as (e & He & Hw & _).
      now exists e.
Defined.

(** ** Alternation after the refinement step *)

(** C1, at a concrete input: the alternating strategy accepts the peak at
    10, the trough at 12, the peak at 13 and the trough at 16; on 400
    values minDistance is 4, so the refinement step drops the peak at 13,
    and the detection run returns the troughs at 12 and 16 with no peak
    between them.  This holds whatever the noise level is, since every
    extremum kept is the extremum of its local window. *)
Theorem detect_alternating_two_close_peaks `{NumpySqrt} :
  _detect_alternating two_close_peaks 0.0001%Q
  = ([(12, (-5)%Q); (16, (-5)%Q)], [(10, 5%Q); (13, 5%Q)])
  /\ detect_extrema two_close_peaks (Some "alternating"%string)
       (mk_kwargs (Some 0.0001%Q) (Some 3))
     = Ok ([(12, (-5)%Q); (16, (-5)%Q)], [(10, 5%Q)])
  /\ index_sorted_concat ([(12, (-5)%Q); (16, (-5)%Q)], [(10, 5%Q)])
     = [(KMax, 10, 5%Q); (KMin, 12, (-5)%Q); (KMin, 16, (-5)%Q)]
  /\ ~ alternates
         (index_sorted_concat ([(12, (-5)%Q); (16, (-5)%Q)], [(10, 5%Q)])).
Proof.
  assert (Hs : _detect_alternating two_close_peaks 0.0001%Q
               = ([(12, (-5)%Q); (16, (-5)%Q)], [(10, 5%Q); (13, 5%Q)]))
    by (vm_compute; reflexivity).
  split; [exact Hs|]. split; [|split].
  - unfold detect_extrema.
    replace (len two_close_peaks <? 3) with false by (vm_compute; reflexivity).
    replace (dispatch "alternating" two_close_peaks
               (mk_kwargs (Some 0.0001%Q) (Some 3)))
      with (Ok (_detect_alternating two_close_peaks 0.0001%Q))
      by reflexivity.
    rewrite Hs. unfold bind, fst, snd.
    rewrite post_process_window_extrema; [reflexivity| |];
      vm_compute; reflexivity.
  - vm_compute. reflexivity.
  - vm_compute. intros (_ & Hne & _). now apply Hne.
Qed.

(** ** Alternation before the refinement step *)

(** What the three alternating strategies return does alternate: the walk
    accepts a candidate only when its kind differs from the last accepted
    one, and the accepted extrema are already in ascending order of
    index. *)

Lemma alternates_snoc (acc : list tagged) (e : tagged) :
  alternates acc ->
  (acc = [] \/ typ_of e <> typ_of (last acc e)) ->
  alternates (acc ++ [e]).
Proof.
  induction acc as [|a acc IH]; intros Halt Hlast; simpl; [exact I|].
  destruct Hlast as [Hnil|Hlast]; [discriminate|].
  destruct acc as [|b acc]; simpl in *.
  - split; [congruence | exact I].
  - destruct Halt as [Hab Halt]. split; [exact Hab|].
    apply IH; [exact Halt | now right].
Qed.

Lemma StronglySorted_remove {A : Type} (R : A -> A -> Prop)
    (pre post : list A) (e : A) :
  StronglySorted R (pre ++ e :: post) -> StronglySorted R (pre ++ post).
Proof.
  induction pre as [|x pre IH]; simpl; intros Hs.
  - now inversion Hs.
  - inversion Hs as [|? ? Hs' Hx]; subst. constructor; [now apply IH|].
    rewrite Forall_app in *. destruct Hx as [Hpre Hpost].
    split; [exact Hpre | now inversion Hpost].
Qed.

Section AlternatingWalk.

Variable walk : list tagged -> tagged -> list tagged.
Hypothesis walk_alternating :
  forall acc e,
    walk acc e = acc
    \/ (walk acc e = acc ++ [e]
        /\ (acc = [] \/ typ_of e <> typ_of (last acc e))).

Lemma walk_alternates (l acc : list tagged) :
  alternates acc -> alternates (fold_left walk l acc).
Proof.
  revert acc. induction l as [|e l IH]; intros acc Halt; simpl; [exact Halt|].
  apply IH. destruct (walk_alternating acc e) as [-> | [-> Hlast]];
    [exact Halt | now apply alternates_snoc].
Qed.

Lemma walk_sorted (R : tagged -> tagged -> Prop) (l acc : list tagged) :
  StronglySorted R (acc ++ l) -> StronglySorted R (fold_left walk l acc).
Proof.
  revert acc. induction l as [|e l IH]; intros acc Hs; simpl.
  - now rewrite app_nil_r in Hs.
  - apply IH. destruct (walk_alternating acc e) as [-> | [-> _]].
    + now apply StronglySorted_remove in Hs.
    + now rewrite <- app_assoc.
Qed.

End AlternatingWalk.

Lemma alternating_walk_body_alternating (t : Q) (acc : list tagged)
    (e : tagged) :
  alternating_walk_body t acc e = acc
  \/ (alternating_walk_body t acc e = acc ++ [e]
      /\ (acc = [] \/ typ_of e <> typ_of (last acc e))).
Proof.
  unfold alternating_walk_body. destruct e as [[typ idx] val].
  destruct acc as [|x acc]; [right; split; [reflexivity | now left]|].
  set (lst := last (x :: acc) (typ, idx, val)).
  destruct (kind_eqb typ (typ_of lst)) eqn:E; simpl; [now left|].
  assert (Hne : typ_of (typ, idx, val) <> typ_of lst)
    by (intros Heq; change (typ = typ_of lst) in Heq; rewrite Heq in E;
        now destruct (typ_of lst)).
  destruct (_ && _); [right; split; [reflexivity | now right]|].
  destruct (_ && _); [right; split; [reflexivity | now right] | now left].
Qed.

Lemma enhanced_walk_body_alternating (t mt : Q) (acc : list tagged)
    (e : tagged) :
  enhanced_walk_body t mt acc e = acc
  \/ (enhanced_walk_body t mt acc e = acc ++ [e]
      /\ (acc = [] \/ typ_of e <> typ_of (last acc e))).
Proof.
  unfold enhanced_walk_body. destruct e as [[typ idx] val].
  destruct acc as [|x acc]; [right; split; [reflexivity | now left]|].
  destruct (last (x :: acc) (typ, idx, val))
    as [[last_type last_idx] last_val] eqn:El.
  destruct (kind_eqb typ last_type) eqn:E; simpl; [now left|].
  assert (Hne : typ_of (typ, idx, val) <> typ_of (last_type, last_idx, last_val))
    by (intros Heq; change (typ = last_type) in Heq; rewrite Heq in E;
        now destruct last_type).
  destruct (_ && _); [|now left].
  destruct (_ && _); [right; split; [reflexivity | now right]|].
  destruct (_ && _); [right; split; [reflexivity | now right] | now left].
Qed.

Lemma strict_walk_body_alternating (t mt : Q) (acc : list tagged)
    (e : tagged) :
  strict_walk_body t mt acc e = acc
  \/ (strict_walk_body t mt acc e = acc ++ [e]
      /\ (acc = [] \/ typ_of e <> typ_of (last acc e))).
Proof.
  unfold strict_walk_body. destruct e as [[typ idx] val].
  destruct acc as [|x acc].
  { destruct (_ || _); [right; split; [reflexivity | now left] | now left]. }
  destruct (last (x :: acc) (typ, idx, val))
    as [[last_type last_idx] last_val] eqn:El.
  destruct (kind_eqb typ last_type) eqn:E; simpl; [now left|].
  assert (Hne : typ_of (typ, idx, val) <> typ_of (last_type, last_idx, last_val))
    by (intros Heq; change (typ = last_type) in Heq; rewrite Heq in E;
        now destruct last_type).
  destruct (_ && _); [|now left].
  destruct (_ && _); [right; split; [reflexivity | now right]|].
  destruct (_ && _); [right; split; [reflexivity | now right] | now left].
Qed.

Section CandidateLoopNoDup.

Variable step :
  list extremum * list extremum -> Z -> list extremum * list extremum.
Hypothesis step_one_list :
  forall acc i,
    step acc i = acc
    \/ (exists v, step acc i = (fst acc ++ [(i, v)], snd acc))
    \/ (exists v, step acc i = (fst acc, snd acc ++ [(i, v)])).

(** The indices of all candidates are pairwise distinct. *)
Lemma candidate_loop_nodup (l : list Z) (acc : list extremum * list extremum) :
  NoDup l ->
  (forall i, In i l -> ~ In i (map fst (snd acc) ++ map fst (fst acc))) ->
  NoDup (map fst (snd acc) ++ map fst (fst acc)) ->
  let r := fold_left step l acc in
  NoDup (map fst (snd r) ++ map fst (fst r)).
Proof.
  revert acc. induction l as [|i l IH]; intros acc Hnd Hfresh Hacc; simpl.
  - exact Hacc.
  - inversion Hnd as [|? ? Hi Hnd']; subst.
    assert (Hperm : step acc i = acc
              \/ Permutation (map fst (snd (step acc i))
                              ++ map fst (fst (step acc i)))
                   (i :: map fst (snd acc) ++ map fst (fst acc))).
    { destruct (step_one_list acc i) as [E|[[v E]|[v E]]]; rewrite E;
        [now left | right | right]; simpl; rewrite map_app; simpl.
      - rewrite app_assoc. symmetry. apply Permutation_cons_append.
      - rewrite <- app_assoc. simpl. symmetry. apply Permutation_middle. }
    apply IH; [exact Hnd'| |].
    + intros j Hj Hin. destruct Hperm as [E|Hperm].
      * rewrite E in Hin. exact (Hfresh j (or_intror Hj) Hin).
      * apply (Permutation_in _ Hperm) in Hin. destruct Hin as [<-|Hin];
          [contradiction | exact (Hfresh j (or_intror Hj) Hin)].
    + destruct Hperm as [E|Hperm]; [now rewrite E|].
      apply (Permutation_NoDup (Permutation_sym Hperm)).
      constructor; [exact (Hfresh i (or_introl eq_refl)) | exact Hacc].
Qed.

Lemma candidate_loop_range_nodup (a b : Z) :
  let r := fold_left step (range a b) ([], []) in
  NoDup (map fst (snd r) ++ map fst (fst r)).
Proof.
  apply candidate_loop_nodup.
  - apply NoDup_range.
  - intros i _ [].
  - constructor.
Qed.

End CandidateLoopNoDup.

Lemma StronglySorted_le_lt {A : Type} (key : A -> Z) (l : list A) :
  StronglySorted (fun a b => key a <= key b) l ->
  NoDup (map key l) ->
  StronglySorted (fun a b => key a < key b) l.
Proof.
  induction 1 as [|a l Hl IH Ha]; intros Hnd; [constructor|].
  simpl in Hnd. inversion Hnd as [|? ? Hnotin Hnd']; subst.
  constructor; [now apply IH|].
  rewrite Forall_forall in *. intros b Hb.
  specialize (Ha b Hb).
  assert (key a <> key b)
    by (intros Heq; apply Hnotin; rewrite Heq; now apply in_map).
  lia.
Qed.

(** A list sorted by key and a rearrangement of it with strictly increasing
    keys are the same list. *)
Lemma sorted_perm_eq {A : Type} (key : A -> Z) (l1 l2 : list A) :
  StronglySorted (fun a b => key a <= key b) l1 ->
  StronglySorted (fun a b => key a < key b) l2 ->
  Permutation l1 l2 -> l1 = l2.
Proof.
  revert l2. induction l1 as [|a t1 IH]; intros l2 Hs1 Hs2 Hp.
  - apply Permutation_nil in Hp. now subst.
  - destruct l2 as [|b t2];
      [apply Permutation_sym, Permutation_nil in Hp; discriminate|].
    inversion Hs1 as [|? ? Hs1' Ha]; subst.
    inversion Hs2 as [|? ? Hs2' Hb]; subst.
    rewrite Forall_forall in Ha, Hb.
    assert (Hab : a = b).
    { assert (Hin1 : In a (b :: t2))
        by (apply (Permutation_in _ Hp); now left).
      assert (Hin2 : In b (a :: t1))
        by (apply (Permutation_in _ (Permutation_sym Hp)); now left).
      destruct Hin1 as [Hba|Hin1]; [now symmetry|].
      destruct Hin2 as [Hab|Hin2]; [exact Hab|].
      specialize (Ha b Hin2). specialize (Hb a Hin1). lia. }
    subst b. f_equal. apply IH; try assumption.
    now apply Permutation_cons_inv in Hp.
Qed.

Lemma tag_of_kind (k : kind) (l : list tagged) :
  map (tag k) (of_kind k l) = filter (fun t => kind_eqb (typ_of t) k) l.
Proof.
  unfold of_kind. rewrite map_map.
  induction l as [|t l IH]; [reflexivity|]. cbn [filter].
  destruct (kind_eqb (typ_of t) k) eqn:E; cbn [map]; [|exact IH].
  rewrite IH. f_equal. destruct t as [[typ idx] val].
  unfold tag, typ_of, idx_of, val_of in *. simpl in *.
  destruct typ, k; simpl in E; congruence.
Qed.

Lemma split_by_kind_perm (l : list tagged) :
  Permutation (merge_tagged (of_kind KMax l) (of_kind KMin l)) l.
Proof.
  unfold merge_tagged. rewrite !tag_of_kind.
  induction l as [|t l IH]; [constructor|]. cbn [filter].
  destruct (typ_of t); cbn [kind_eqb app].
  - now constructor.
  - rewrite <- Permutation_middle. now constructor.
Qed.

Lemma merge_tagged_indices (maxima minima : list extremum) :
  map idx_of (merge_tagged maxima minima) = map fst maxima ++ map fst minima.
Proof.
  unfold merge_tagged. rewrite map_app, !map_map. reflexivity.
Qed.

Section AlternatingStrategy.

Variable walk : list tagged -> tagged -> list tagged.
Hypothesis walk_alternating :
  forall acc e,
    walk acc e = acc
    \/ (walk acc e = acc ++ [e]
        /\ (acc = [] \/ typ_of e <> typ_of (last acc e))).

(** From candidates with pairwise distinct indices, the walk accepts a
    list that is its own index-sorted concatenation, and that
    alternates. *)
Lemma accepted_alternates (candidates : list extremum * list extremum) :
  NoDup (map fst (snd candidates) ++ map fst (fst candidates)) ->
  let accepted :=
    fold_left walk
      (sorted_by_key idx_of (merge_tagged (snd candidates) (fst candidates)))
      [] in
  index_sorted_concat (of_kind KMin accepted, of_kind KMax accepted) = accepted
  /\ alternates accepted.
Proof.
  intros Hnd accepted.
  split; [|apply (walk_alternates walk walk_alternating); exact I].
  set (all := sorted_by_key idx_of
                (merge_tagged (snd candidates) (fst candidates))) in *.
  assert (Hall : StronglySorted (fun a b => idx_of a < idx_of b) all).
  { apply StronglySorted_le_lt; [apply sorted_by_key_sorted|].
    apply (Permutation_NoDup (l := map idx_of
             (merge_tagged (snd candidates) (fst candidates)))).
    - apply Permutation_map, Permutation_sym. unfold all, sorted_by_key.
      apply stable_sort_perm.
    - now rewrite merge_tagged_indices. }
  assert (Hacc : StronglySorted (fun a b => idx_of a < idx_of b) accepted)
    by (apply (walk_sorted walk walk_alternating); exact Hall).
  unfold index_sorted_concat. simpl fst. simpl snd.
  apply (sorted_perm_eq idx_of); [apply sorted_by_key_sorted | exact Hacc|].
  unfold sorted_by_key. rewrite stable_sort_perm. apply split_by_kind_perm.
Qed.

End AlternatingStrategy.

(** X20: the results of the three alternating strategies, read in
    ascending order of index, alternate in kind (before the refinement
    step). *)
Lemma alternating_strategies_alternate (data : list Q) (threshold : Q) :
  alternates (index_sorted_concat (_detect_alternating data threshold))
  /\ alternates (index_sorted_concat (_detect_enhanced data threshold))
  /\ alternates (index_sorted_concat (_detect_strict data threshold)).
Proof.
  split; [|split].
  - unfold _detect_alternating. destruct (len data <? 5); [exact I|].
    pose proof (candidate_loop_range_nodup _
                  (alternating_candidates_body_one_list data threshold)
                  2 (len data - 2)) as Hc.
    cbv zeta in Hc.
    destruct (fold_left (alternating_candidates_body data threshold) _ _)
      as [all_minima all_maxima].
    destruct (accepted_alternates _
                (alternating_walk_body_alternating threshold) _ Hc)
      as [Heq Halt].
    simpl fst in *. simpl snd in *. rewrite Heq. exact Halt.
  - unfold _detect_enhanced. destruct (len data <? 7); [exact I|].
    cbv zeta.
    match goal with |- context [potential_body data ?mt] =>
      pose proof (candidate_loop_range_nodup _
                    (potential_body_one_list data mt) 3 (len data - 3)) as Hc;
      cbv zeta in Hc;
      destruct (fold_left (potential_body data mt) _ _)
        as [potential_minima potential_maxima];
      destruct (accepted_alternates _
                  (enhanced_walk_body_alternating threshold mt) _ Hc)
        as [Heq Halt]
    end.
    simpl fst in *. simpl snd in *. rewrite Heq. exact Halt.
  - unfold _detect_strict. destruct (len data <? 7); [exact I|].
    cbv zeta.
    match goal with |- context [potential_body data ?mt] =>
      pose proof (candidate_loop_range_nodup _
                    (potential_body_one_list data mt) 3 (len data - 3)) as Hc;
      cbv zeta in Hc;
      destruct (fold_left (potential_body data mt) _ _)
        as [potential_minima potential_maxima];
      destruct (accepted_alternates _
                  (strict_walk_body_alternating threshold mt) _ Hc)
        as [Heq Halt]
    end.
    simpl fst in *. simpl snd in *. rewrite Heq. exact Halt.
Qed.

(** * Further properties *)

(** ** Candidate loops as maps over the index range *)

Lemma range_sorted (a b : Z) : StronglySorted Z.lt (range a b).
Proof.
  unfold range. generalize (Z.to_nat (b - a)) as n. generalize 0%nat as s.
  intros s n. revert s. induction n as [|n IH]; intros s; simpl; constructor.
  - apply IH.
  - apply Forall_forall. intros j Hj.
    apply in_map_iff in Hj as (k & <- & Hk). apply in_seq in Hk. lia.
Qed.

Section PointPieces.

Variable data : list Q.

(** [f i] is empty or the single point of [data] at [i]. *)
Variable f : Z -> list extremum.
Hypothesis f_point : forall i, f i = [] \/ f i = [(i, data.[i])].

Lemma pieces_In (l : list Z) (e : extremum) :
  In e (flat_map f l) <->
  In (fst e) l /\ snd e = data.[fst e] /\ f (fst e) = [e].
Proof.
  rewrite in_flat_map. split.
  - intros (i & Hi & He). destruct (f_point i) as [E|E]; rewrite E in He.
    + destruct He.
    + destruct He as [<-|[]]. simpl. now repeat split.
  - intros (Hi & Hv & Hf). exists (fst e). split; [exact Hi|].
    rewrite Hf. now left.
Qed.

Lemma pieces_sorted (l : list Z) :
  StronglySorted Z.lt l -> index_ascending (flat_map f l).
Proof.
  unfold index_ascending.
  induction 1 as [|i l Hl IH Hi]; simpl; [constructor|].
  destruct (f_point i) as [-> | ->]; simpl; [exact IH|].
  constructor; [exact IH|].
  apply Forall_forall. intros e He. apply pieces_In in He as (He & _).
  rewrite Forall_forall in Hi. specialize (Hi _ He).
  unfold gap_ge. simpl. lia.
Qed.

Lemma pieces_length (l : list Z) :
  (length (flat_map f l) <= length l)%nat.
Proof.
  induction l as [|i l IH]; simpl; [lia|].
  rewrite length_app. destruct (f_point i) as [-> | ->]; simpl; lia.
Qed.

End PointPieces.

Section PointLoop.

Variable data : list Q.
Variable step :
  list extremum * list extremum -> Z -> list extremum * list extremum.

(** What the body appends does not depend on the accumulator, and is at
    most the current point. *)
Hypothesis step_appends :
  forall acc i,
    step acc i = (fst acc ++ fst (step ([], []) i),
                  snd acc ++ snd (step ([], []) i)).
Hypothesis step_point :
  forall i,
    (fst (step ([], []) i) = [] \/ fst (step ([], []) i) = [(i, data.[i])])
    /\ (snd (step ([], []) i) = [] \/ snd (step ([], []) i) = [(i, data.[i])]).

Lemma point_loop_flat_map (l : list Z) (acc : list extremum * list extremum) :
  fold_left step l acc
  = (fst acc ++ flat_map (fun i => fst (step ([], []) i)) l,
     snd acc ++ flat_map (fun i => snd (step ([], []) i)) l).
Proof.
  revert acc. induction l as [|i l IH]; intros acc; simpl.
  - rewrite !app_nil_r. now destruct acc.
  - rewrite IH, step_appends. simpl. now rewrite <- !app_assoc.
Qed.

Lemma point_loop_well_formed (a b : Z) :
  well_formed_result data a b (fold_left step (range a b) ([], [])).
Proof.
  rewrite point_loop_flat_map. simpl.
  repeat split.
  - apply Forall_forall. intros e He.
    apply (pieces_In data _ (fun i => proj1 (step_point i))) in He
      as (Hi & Hv & _).
    apply in_range in Hi. now split.
  - apply Forall_forall. intros e He.
    apply (pieces_In data _ (fun i => proj2 (step_point i))) in He
      as (Hi & Hv & _).
    apply in_range in Hi. now split.
  - apply (pieces_sorted data _ (fun i => proj1 (step_point i))), range_sorted.
  - apply (pieces_sorted data _ (fun i => proj2 (step_point i))), range_sorted.
Qed.

End PointLoop.

Ltac body_cases :=
  repeat match goal with
         | |- context [if ?c then _ else _] => destruct c
         end;
  simpl; rewrite ?app_nil_r; auto.

Lemma simple_body_appends (data : list Q) (t : Q) acc i :
  simple_body data t acc i
  = (fst acc ++ fst (simple_body data t ([], []) i),
     snd acc ++ snd (simple_body data t ([], []) i)).
Proof. unfold simple_body. destruct acc. body_cases. Qed.

Lemma simple_body_point (data : list Q) (t : Q) i :
  (fst (simple_body data t ([], []) i) = []
   \/ fst (simple_body data t ([], []) i) = [(i, data.[i])])
  /\ (snd (simple_body data t ([], []) i) = []
      \/ snd (simple_body data t ([], []) i) = [(i, data.[i])]).
Proof. unfold simple_body. body_cases. Qed.

Lemma window_body_appends (data : list Q) (w : Z) acc i :
  window_body data w acc i
  = (fst acc ++ fst (window_body data w ([], []) i),
     snd acc ++ snd (window_body data w ([], []) i)).
Proof. unfold window_body. destruct acc. body_cases. Qed.

Lemma window_body_point (data : list Q) (w : Z) i :
  (fst (window_body data w ([], []) i) = []
   \/ fst (window_body data w ([], []) i) = [(i, data.[i])])
  /\ (snd (window_body data w ([], []) i) = []
      \/ snd (window_body data w ([], []) i) = [(i, data.[i])]).
Proof. unfold window_body. body_cases. Qed.

Lemma slope_body_appends (data slopes : list Q) (t : Q) acc i :
  slope_body data slopes t acc i
  = (fst acc ++ fst (slope_body data slopes t ([], []) i),
     snd acc ++ snd (slope_body data slopes t ([], []) i)).
Proof. unfold slope_body. destruct acc. body_cases. Qed.

Lemma slope_body_point (data slopes : list Q) (t : Q) i :
  (fst (slope_body data slopes t ([], []) i) = []
   \/ fst (slope_body data slopes t ([], []) i) = [(i, data.[i])])
  /\ (snd (slope_body data slopes t ([], []) i) = []
      \/ snd (slope_body data slopes t ([], []) i) = [(i, data.[i])]).
Proof. unfold slope_body. body_cases. Qed.

Lemma alternating_candidates_body_appends (data : list Q) (t : Q) acc i :
  alternating_candidates_body data t acc i
  = (fst acc ++ fst (alternating_candidates_body data t ([], []) i),
     snd acc ++ snd (alternating_candidates_body data t ([], []) i)).
Proof. unfold alternating_candidates_body. destruct acc. body_cases. Qed.

Lemma alternating_candidates_body_point (data : list Q) (t : Q) i :
  (fst (alternating_candidates_body data t ([], []) i) = []
   \/ fst (alternating_candidates_body data t ([], []) i) = [(i, data.[i])])
  /\ (snd (alternating_candidates_body data t ([], []) i) = []
      \/ snd (alternating_candidates_body data t ([], []) i)
         = [(i, data.[i])]).
Proof. unfold alternating_candidates_body. body_cases. Qed.

Lemma potential_body_appends (data : list Q) (mt : Q) acc i :
  potential_body data mt acc i
  = (fst acc ++ fst (potential_body data mt ([], []) i),
     snd acc ++ snd (potential_body data mt ([], []) i)).
Proof. unfold potential_body. destruct acc. body_cases. Qed.

Lemma potential_body_point (data : list Q) (mt : Q) i :
  (fst (potential_body data mt ([], []) i) = []
   \/ fst (potential_body data mt ([], []) i) = [(i, data.[i])])
  /\ (snd (potential_body data mt ([], []) i) = []
      \/ snd (potential_body data mt ([], []) i) = [(i, data.[i])]).
Proof. unfold potential_body. body_cases. Qed.

(** ** Every strategy returns points of the data, in ascending order *)

Lemma well_formed_nil (data : list Q) (lo hi : Z) :
  well_formed_result data lo hi ([], []).
Proof. repeat split; constructor. Qed.

Lemma well_formed_weaken (data : list Q) (lo hi lo' hi' : Z)
    (r : list extremum * list extremum) :
  lo' <= lo -> hi <= hi' ->
  well_formed_result data lo hi r -> well_formed_result data lo' hi' r.
Proof.
  intros Hlo Hhi (Hm & HM & Hsm & HsM). repeat split; try assumption.
  - eapply Forall_impl; [|exact Hm]. intros e [Hr Hv]. split; [lia | exact Hv].
  - eapply Forall_impl; [|exact HM]. intros e [Hr Hv]. split; [lia | exact Hv].
Qed.

Lemma of_kind_In (k : kind) (l : list tagged) (e : extremum) :
  In e (of_kind k l) ->
  exists t, In t l /\ typ_of t = k /\ e = (idx_of t, val_of t).
Proof.
  unfold of_kind. intros Hin. apply in_map_iff in Hin as (t & <- & Ht).
  apply filter_In in Ht as [Ht Hk]. exists t. repeat split; [exact Ht|].
  destruct (typ_of t), k; simpl in Hk; congruence.
Qed.

Lemma merge_tagged_In (maxima minima : list extremum) (t : tagged) :
  In t (merge_tagged maxima minima) ->
  (typ_of t = KMax /\ In (idx_of t, val_of t) maxima)
  \/ (typ_of t = KMin /\ In (idx_of t, val_of t) minima).
Proof.
  unfold merge_tagged. intros Hin.
  apply in_app_or in Hin as [Hin|Hin];
    apply in_map_iff in Hin as ([i v] & <- & He); [left | right];
    (split; [reflexivity | exact He]).
Qed.

Lemma of_kind_ascending (k : kind) (l : list tagged) :
  StronglySorted (fun a b => idx_of a < idx_of b) l ->
  index_ascending (of_kind k l).
Proof.
  unfold index_ascending, of_kind.
  induction 1 as [|t l Hl IH Ht]; simpl; [constructor|].
  destruct (kind_eqb (typ_of t) k); simpl; [|exact IH].
  constructor; [exact IH|].
  apply Forall_forall. intros e He.
  apply in_map_iff in He as (t' & <- & Ht'). apply filter_In in Ht' as [Ht' _].
  rewrite Forall_forall in Ht. specialize (Ht _ Ht').
  unfold gap_ge. simpl. lia.
Qed.

Section AcceptedWellFormed.

Variable data : list Q.
Variable walk : list tagged -> tagged -> list tagged.
Hypothesis walk_alternating :
  forall acc e,
    walk acc e = acc
    \/ (walk acc e = acc ++ [e]
        /\ (acc = [] \/ typ_of e <> typ_of (last acc e))).

Lemma walk_keeps_of_alternating :
  forall acc e, walk acc e = acc \/ walk acc e = acc ++ [e].
Proof.
  intros acc e. destruct (walk_alternating acc e) as [E|[E _]]; auto.
Qed.

(** The accepted extrema are candidates, and their indices increase
    strictly. *)
Lemma accepted_sorted (candidates : list extremum * list extremum) :
  NoDup (map fst (snd candidates) ++ map fst (fst candidates)) ->
  StronglySorted (fun a b => idx_of a < idx_of b)
    (fold_left walk
       (sorted_by_key idx_of (merge_tagged (snd candidates) (fst candidates)))
       []).
Proof.
  intros Hnd. apply (walk_sorted walk walk_alternating). simpl.
  apply StronglySorted_le_lt; [apply sorted_by_key_sorted|].
  apply (Permutation_NoDup (l := map idx_of
           (merge_tagged (snd candidates) (fst candidates)))).
  - apply Permutation_map, Permutation_sym. unfold sorted_by_key.
    apply stable_sort_perm.
  - now rewrite merge_tagged_indices.
Qed.

Lemma accepted_In (candidates : list extremum * list extremum) (k : kind)
    (e : extremum) :
  In e (of_kind k
          (fold_left walk
             (sorted_by_key idx_of
                (merge_tagged (snd candidates) (fst candidates))) [])) ->
  match k with
  | KMax => In e (snd candidates)
  | KMin => In e (fst candidates)
  end.
Proof.
  intros Hin. apply of_kind_In in Hin as (t & Ht & Hk & ->).
  apply (fold_left_keep_or_append walk walk_keeps_of_alternating) in Ht
    as [[]|Ht].
  unfold sorted_by_key in Ht. apply stable_sort_In in Ht.
  apply merge_tagged_In in Ht as [[Hk' Ht]|[Hk' Ht]];
    destruct k; congruence || exact Ht.
Qed.

Lemma accepted_well_formed (lo hi : Z)
    (candidates : list extremum * list extremum) :
  NoDup (map fst (snd candidates) ++ map fst (fst candidates)) ->
  well_formed_result data lo hi candidates ->
  let accepted :=
    fold_left walk
      (sorted_by_key idx_of (merge_tagged (snd candidates) (fst candidates)))
      [] in
  well_formed_result data lo hi (of_kind KMin accepted, of_kind KMax accepted).
Proof.
  intros Hnd (Hm & HM & _ & _) accepted. simpl.
  rewrite Forall_forall in Hm, HM.
  repeat split; simpl.
  - apply Forall_forall. intros e He. apply Hm.
    exact (accepted_In candidates KMin e He).
  - apply Forall_forall. intros e He. apply HM.
    exact (accepted_In candidates KMax e He).
  - now apply of_kind_ascending, accepted_sorted.
  - now apply of_kind_ascending, accepted_sorted.
Qed.

End AcceptedWellFormed.

Lemma len_slopes_of (data : list Q) :
  len (slopes_of data) = Z.max 0 (len data - 1).
Proof.
  unfold slopes_of, len. rewrite length_map, length_range. unfold len. lia.
Qed.

Lemma detect_simple_well_formed (data : list Q) (threshold : Q) :
  well_formed_result data 1 (len data - 1) (_detect_simple data threshold).
Proof.
  unfold _detect_simple. destruct (len data <? 3); [apply well_formed_nil|].
  apply point_loop_well_formed;
    [apply simple_body_appends | apply simple_body_point].
Qed.

Lemma detect_window_well_formed (data : list Q) (window_size : Z) :
  match _detect_window data window_size with
  | Ok r => well_formed_result data window_size (len data - window_size) r
  | Raise _ => window_size < 0
  end.
Proof.
  unfold _detect_window.
  destruct (len data <? window_size + 2); [apply well_formed_nil|].
  destruct (window_size <? 0) eqn:E; [lia|].
  apply point_loop_well_formed;
    [apply window_body_appends | apply window_body_point].
Qed.

Lemma detect_slope_well_formed (data : list Q) (threshold : Q) :
  well_formed_result data 1 (len data - 2) (_detect_slope data threshold).
Proof.
  unfold _detect_slope. destruct (len data <? 4) eqn:E;
    [apply well_formed_nil|].
  cbv zeta. rewrite len_slopes_of.
  replace (Z.max 0 (len data - 1) - 1) with (len data - 2) by lia.
  apply point_loop_well_formed;
    [apply slope_body_appends | apply slope_body_point].
Qed.

Lemma detect_alternating_well_formed (data : list Q) (threshold : Q) :
  well_formed_result data 2 (len data - 2) (_detect_alternating data threshold).
Proof.
  unfold _detect_alternating.
  destruct (len data <? 5); [apply well_formed_nil|].
  pose proof (candidate_loop_range_nodup _
                (alternating_candidates_body_one_list data threshold)
                2 (len data - 2)) as Hnd.
  pose proof (point_loop_well_formed data _
                (alternating_candidates_body_appends data threshold)
                (alternating_candidates_body_point data threshold)
                2 (len data - 2)) as Hwf.
  cbv zeta in Hnd.
  destruct (fold_left (alternating_candidates_body data threshold) _ _)
    as [all_minima all_maxima].
  exact (accepted_well_formed data _
           (alternating_walk_body_alternating threshold) _ _ _ Hnd Hwf).
Qed.

Lemma detect_enhanced_well_formed (data : list Q) (threshold : Q) :
  well_formed_result data 3 (len data - 3) (_detect_enhanced data threshold).
Proof.
  unfold _detect_enhanced.
  destruct (len data <? 7); [apply well_formed_nil|].
  cbv zeta.
  match goal with |- context [potential_body data ?mt] =>
    pose proof (candidate_loop_range_nodup _
                  (potential_body_one_list data mt) 3 (len data - 3)) as Hnd;
    pose proof (point_loop_well_formed data _
                  (potential_body_appends data mt)
                  (potential_body_point data mt) 3 (len data - 3)) as Hwf;
    cbv zeta in Hnd;
    destruct (fold_left (potential_body data mt) _ _)
      as [potential_minima potential_maxima];
    exact (accepted_well_formed data _
             (enhanced_walk_body_alternating threshold mt) _ _ _ Hnd Hwf)
  end.
Qed.

Lemma detect_strict_well_formed (data : list Q) (threshold : Q) :
  well_formed_result data 3 (len data - 3) (_detect_strict data threshold).
Proof.
  unfold _detect_strict.
  destruct (len data <? 7); [apply well_formed_nil|].
  cbv zeta.
  match goal with |- context [potential_body data ?mt] =>
    pose proof (candidate_loop_range_nodup _
                  (potential_body_one_list data mt) 3 (len data - 3)) as Hnd;
    pose proof (point_loop_well_formed data _
                  (potential_body_appends data mt)
                  (potential_body_point data mt) 3 (len data - 3)) as Hwf;
    cbv zeta in Hnd;
    destruct (fold_left (potential_body data mt) _ _)
      as [potential_minima potential_maxima];
    exact (accepted_well_formed data _
             (strict_walk_body_alternating threshold mt) _ _ _ Hnd Hwf)
  end.
Qed.

(** X1: every strategy returns two lists of points of the data (index in
    the interior range the strategy scans, value the value of the data
    there), each in strictly ascending order of index. *)
Theorem strategies_well_formed (data : list Q) (threshold : Q)
    (window_size : Z) :
  well_formed_result data 1 (len data - 1) (_detect_simple data threshold)
  /\ match _detect_window data window_size with
     | Ok r => well_formed_result data window_size (len data - window_size) r
     | Raise _ => window_size < 0
     end
  /\ well_formed_result data 1 (len data - 2) (_detect_slope data threshold)
  /\ well_formed_result data 2 (len data - 2)
       (_detect_alternating data threshold)
  /\ well_formed_result data 3 (len data - 3) (_detect_enhanced data threshold)
  /\ well_formed_result data 3 (len data - 3) (_detect_strict data threshold).
Proof.
  split; [apply detect_simple_well_formed|].
  split; [apply detect_window_well_formed|].
  split; [apply detect_slope_well_formed|].
  split; [apply detect_alternating_well_formed|].
  split; [apply detect_enhanced_well_formed|].
  apply detect_strict_well_formed.
Qed.

(** ** The refinement step only removes entries *)

Lemma dict_set_In (d : list (Z * Q)) (k : Z) (v : Q) (e : Z * Q) :
  In e (dict_set d k v) -> In e d \/ e = (k, v).
Proof.
  induction d as [|[k' v'] d IH]; simpl.
  - intros [<-|[]]. now right.
  - destruct (k' =? k) eqn:E; simpl.
    + apply Z.eqb_eq in E. subst k'. intros [<-|Hin]; auto.
    + intros [<-|Hin]; auto. destruct (IH Hin); auto.
Qed.

Lemma dict_of_In (l : list (Z * Q)) (e : Z * Q) :
  In e (dict_of l) -> In e l.
Proof.
  unfold dict_of.
  enough (Hgen : forall acc,
            In e (fold_left (fun d kv => dict_set d (fst kv) (snd kv)) l acc) ->
            In e acc \/ In e l).
  { intros Hin. destruct (Hgen [] Hin) as [[]|Hl]. exact Hl. }
  induction l as [|[k v] l IH]; intros acc Hin; simpl in *; [now left|].
  destruct (IH _ Hin) as [Hacc|Hl]; [|now right; right].
  destruct (dict_set_In _ _ _ _ Hacc) as [Hd| ->]; [now left | now right; left].
Qed.

Lemma refine_one_In (l : list extremum) (d : Z) (e : extremum) :
  In e (_remove_close_extrema (sorted_items (dict_of l)) d) -> In e l.
Proof.
  intros Hin. apply remove_close_incl in Hin.
  unfold sorted_items in Hin. apply stable_sort_In in Hin.
  now apply dict_of_In.
Qed.

Lemma gap_ascending (d : Z) (l : list extremum) :
  1 <= d -> StronglySorted (gap_ge d) l -> index_ascending l.
Proof.
  intros Hd. apply StronglySorted_impl. unfold gap_ge. intros a b. lia.
Qed.

Lemma post_process_In (minima maxima : list extremum) (data : list Q)
    (c : characteristics) (e : extremum) :
  let r := _post_process_results minima maxima data c in
  (In e (fst r) -> In e minima) /\ (In e (snd r) -> In e maxima).
Proof.
  unfold _post_process_results.
  destruct (get c noise_level 0 >? 0)%Q; simpl; split; intros He.
  - rewrite filter_by_quality_filter in He.
    apply filter_In in He as [He _]. now apply refine_one_In in He.
  - rewrite filter_by_quality_filter in He.
    apply filter_In in He as [He _]. now apply refine_one_In in He.
  - now apply refine_one_In in He.
  - now apply refine_one_In in He.
Qed.

Lemma post_process_ascending (minima maxima : list extremum) (data : list Q)
    (c : characteristics) :
  let r := _post_process_results minima maxima data c in
  index_ascending (fst r) /\ index_ascending (snd r).
Proof.
  destruct (post_process_strongly_sorted minima maxima data c) as [Hm HM].
  assert (Hd : 1 <= min_distance data) by (unfold min_distance; lia).
  split; eapply gap_ascending; eassumption.
Qed.

(** X2: the refinement step never invents or alters an extremum: every
    entry it returns is an entry of the list it was given, and each of the
    two lists it returns is in strictly ascending order of index (so no
    index occurs twice), whatever lists it was given. *)
Theorem post_process_selects (minima maxima : list extremum) (data : list Q)
    (c : characteristics) :
  let r := _post_process_results minima maxima data c in
  (forall e, In e (fst r) -> In e minima)
  /\ (forall e, In e (snd r) -> In e maxima)
  /\ index_ascending (fst r)
  /\ index_ascending (snd r).
Proof.
  intros r.
  split; [intros e; apply (post_process_In minima maxima data c e)|].
  split; [intros e; apply (post_process_In minima maxima data c e)|].
  apply post_process_ascending.
Qed.

Lemma post_process_selects_witness :
  In (4, 2%Q) [(4, 2%Q); (2, 1%Q); (3, 0%Q)].
Proof.
  destruct (post_process_selects [(4, 2%Q); (2, 1%Q); (3, 0%Q)] []
              scenario_data None) as (Hmin & _).
  apply Hmin. vm_compute. right. now left.
Defined.

Lemma dispatch_well_formed `{NumpySqrt} (method : string) (data : list Q)
    (kw : kwargs) :
  match dispatch method data kw with
  | Ok r => well_formed_result data 0 (len data) r
  | Raise e => raise_cause kw e
  end.
Proof.
  pose proof (detect_simple_well_formed data (threshold_of kw)) as Hs.
  pose proof (detect_window_well_formed data (window_size_of kw)) as Hw.
  pose proof (detect_slope_well_formed data (threshold_of kw)) as Hsl.
  pose proof (detect_alternating_well_formed data (threshold_of kw)) as Ha.
  pose proof (detect_enhanced_well_formed data (threshold_of kw)) as He.
  pose proof (detect_strict_well_formed data (threshold_of kw)) as Hst.
  pose proof (dispatch_disjoint method data kw) as Hraise.
  unfold dispatch in *.
  destruct (String.eqb method "simple").
  { destruct (kw_window_size kw); [exact Hraise|].
    eapply well_formed_weaken; [| |exact Hs]; lia. }
  destruct (String.eqb method "window").
  { unfold _detect_window in *.
    destruct (len data <? window_size_of kw + 2); [apply well_formed_nil|].
    destruct (window_size_of kw <? 0) eqn:E2; [exact Hraise|].
    eapply well_formed_weaken; [| |exact Hw]; lia. }
  destruct (String.eqb method "slope");
    [eapply well_formed_weaken; [| |exact Hsl]; lia|].
  destruct (String.eqb method "alternating");
    [eapply well_formed_weaken; [| |exact Ha]; lia|].
  destruct (String.eqb method "enhanced");
    [eapply well_formed_weaken; [| |exact He]; lia|].
  destruct (String.eqb method "strict");
    eapply well_formed_weaken; try eassumption; lia.
Qed.

Lemma detect_extrema_points `{NumpySqrt} (data : list Q)
    (method : option string) (kw : kwargs) :
  match detect_extrema data method kw with
  | Ok r => well_formed_result data 0 (len data) r
  | Raise e => raise_cause kw e
  end.
Proof.
  unfold detect_extrema.
  destruct (len data <? 3); [apply well_formed_nil|].
  match goal with |- context [dispatch ?m data kw] =>
    pose proof (dispatch_well_formed m data kw) as Hd;
    destruct (dispatch m data kw) as [r|e]
  end; simpl; [|exact Hd].
  destruct Hd as (Hm & HM & _ & _).
  destruct (post_process_ascending (fst r) (snd r) data
              (analyze_data_characteristics data)) as (H3 & H4).
  rewrite Forall_forall in Hm, HM.
  repeat split; try assumption; apply Forall_forall; intros e He.
  - now apply Hm, (post_process_In (fst r) (snd r) data
                     (analyze_data_characteristics data) e).
  - now apply HM, (post_process_In (fst r) (snd r) data
                     (analyze_data_characteristics data) e).
Qed.

(** X3: a detection run, called directly or through
    [find_local_extrema_unified], returns two lists of points of the
    sequence (index in [0, len), value the value of the sequence there),
    each in strictly ascending order of index; it raises only when the
    keyword arguments do not fit the chosen strategy. *)
Theorem detect_extrema_well_formed `{NumpySqrt} (data : list Q)
    (method : option string) (name : string) (kw : kwargs) :
  match detect_extrema data method kw with
  | Ok r => well_formed_result data 0 (len data) r
  | Raise e => raise_cause kw e
  end
  /\ match find_local_extrema_unified data name kw with
     | Ok r => well_formed_result data 0 (len data) r
     | Raise e => raise_cause kw e
     end.
Proof.
  split; [apply detect_extrema_points|].
  unfold find_local_extrema_unified.
  destruct (String.eqb name "auto"); apply detect_extrema_points.
Qed.

(** ** What the strategies accept *)

Lemma candidate_loop_In (data : list Q)
    (step : list extremum * list extremum -> Z ->
            list extremum * list extremum)
    (Happ : forall acc i,
        step acc i = (fst acc ++ fst (step ([], []) i),
                      snd acc ++ snd (step ([], []) i)))
    (Hpt : forall i,
        (fst (step ([], []) i) = [] \/ fst (step ([], []) i) = [(i, data.[i])])
        /\ (snd (step ([], []) i) = []
            \/ snd (step ([], []) i) = [(i, data.[i])]))
    (a b : Z) (e : extremum) :
  let r := fold_left step (range a b) ([], []) in
  (In e (fst r) <->
     data_point data a b e /\ fst (step ([], []) (fst e)) = [e])
  /\ (In e (snd r) <->
        data_point data a b e /\ snd (step ([], []) (fst e)) = [e]).
Proof.
  simpl. rewrite (point_loop_flat_map step Happ). simpl.
  rewrite (pieces_In data _ (fun i => proj1 (Hpt i))).
  rewrite (pieces_In data _ (fun i => proj2 (Hpt i))).
  unfold data_point. rewrite in_range. tauto.
Qed.


Lemma is_max_candidate_peak (data : list Q) (i : Z) :
  is_max_candidate data i = true -> strict_peak data 3 0 i.
Proof.
  unfold is_max_candidate. rewrite forallb_forall. intros Hall j Hj Hji.
  assert (Hin : In j (range (i - 3) (i + 4))) by (apply in_range; lia).
  specialize (Hall j Hin).
  replace (j =? i) with false in Hall by (symmetry; lia). simpl in Hall.
  apply negb_true_iff in Hall. unfold Qgeb in Hall.
  assert (~ (data.[i] <= data.[j])%Q)
    by (intros Hle; apply Qle_bool_iff in Hle; congruence).
  lra.
Qed.

Lemma is_min_candidate_trough (data : list Q) (mt : Q) (i : Z) :
  is_min_candidate data mt i = true ->
  strict_trough data 3 0 i /\ (data.[i] <= mt)%Q.
Proof.
  unfold is_min_candidate.
  destruct (data.[i] >? mt)%Q eqn:E; [discriminate|].
  apply Qltb_ge in E. rewrite forallb_forall. intros Hall.
  split; [|exact E]. intros j Hj Hji.
  assert (Hin : In j (range (i - 3) (i + 4))) by (apply in_range; lia).
  specialize (Hall j Hin).
  replace (j =? i) with false in Hall by (symmetry; lia). simpl in Hall.
  apply negb_true_iff in Hall.
  assert (~ (data.[j] <= data.[i])%Q)
    by (intros Hle; apply Qle_bool_iff in Hle; congruence).
  lra.
Qed.

Lemma potential_candidates_sound (data : list Q) (mt : Q) (a b : Z)
    (e : extremum) :
  let r := fold_left (potential_body data mt) (range a b) ([], []) in
  (In e (snd r) -> strict_peak data 3 0 (fst e))
  /\ (In e (fst r) ->
        strict_trough data 3 0 (fst e) /\ (snd e <= mt)%Q).
Proof.
  destruct (candidate_loop_In data _ (potential_body_appends data mt)
              (potential_body_point data mt) a b e) as [Hmin Hmax].
  simpl. rewrite Hmin, Hmax. clear Hmin Hmax.
  unfold potential_body. simpl. split.
  - intros [_ He]. apply is_max_candidate_peak.
    destruct (is_max_candidate data (fst e)); [reflexivity | discriminate He].
  - intros [[_ Hv] He]. rewrite Hv. apply is_min_candidate_trough.
    destruct (is_min_candidate data mt (fst e));
      [reflexivity | discriminate He].
Qed.

Lemma alternating_candidates_sound (data : list Q) (t : Q) (a b : Z)
    (e : extremum) :
  let r := fold_left (alternating_candidates_body data t) (range a b) ([], []) in
  (In e (snd r) -> strict_peak data 2 t (fst e))
  /\ (In e (fst r) -> strict_trough data 2 t (fst e)).
Proof.
  destruct (candidate_loop_In data _
              (alternating_candidates_body_appends data t)
              (alternating_candidates_body_point data t) a b e)
    as [Hmin Hmax].
  simpl. rewrite Hmin, Hmax. clear Hmin Hmax.
  unfold alternating_candidates_body. cbv beta iota zeta. set (i := fst e).
  destruct ((data.[i] >? data.[i - 1] + t)%Q
            && (data.[i] >? data.[i + 1] + t)%Q
            && (data.[i] >? data.[i - 2] + t)%Q
            && (data.[i] >? data.[i + 2] + t)%Q) eqn:Emax.
  - split; [|intros [_ He]; simpl in He; discriminate He].
    intros _ j Hj Hji.
    rewrite !andb_true_iff, !Qgtb_lt in Emax.
    assert (Hcase : j = i - 2 \/ j = i - 1 \/ j = i + 1 \/ j = i + 2) by lia.
    destruct Hcase as [-> |[-> |[-> | ->]]]; tauto.
  - destruct ((data.[i] <? data.[i - 1] - t)%Q
              && (data.[i] <? data.[i + 1] - t)%Q
              && (data.[i] <? data.[i - 2] - t)%Q
              && (data.[i] <? data.[i + 2] - t)%Q) eqn:Emin;
      (split; [intros [_ He]; simpl in He; discriminate He|]);
      [|intros [_ He]; simpl in He; discriminate He].
    intros _ j Hj Hji.
    rewrite !andb_true_iff, !Qltb_lt in Emin.
    assert (Hcase : j = i - 2 \/ j = i - 1 \/ j = i + 1 \/ j = i + 2) by lia.
    destruct Hcase as [-> |[-> |[-> | ->]]]; tauto.
Qed.

Lemma min2_le_l (a b : Q) : (min2 a b <= a)%Q.
Proof.
  unfold min2. destruct (b <? a)%Q eqn:E; [|apply Qle_refl].
  apply Qltb_lt in E. now apply Qlt_le_weak.
Qed.

(** X5: every extremum the alternating strategies return is a strict local
    extremum of the sequence: alternating maxima (minima) exceed (lie
    below) the four values within two positions by more than the
    threshold; enhanced and strict maxima (minima) exceed (lie below) the
    six values within three positions, and their minima are at most 0.4. *)
Theorem alternating_strategies_sound (data : list Q) (threshold : Q)
    (e : extremum) :
  (In e (snd (_detect_alternating data threshold)) ->
     strict_peak data 2 threshold (fst e))
  /\ (In e (fst (_detect_alternating data threshold)) ->
        strict_trough data 2 threshold (fst e))
  /\ (In e (snd (_detect_enhanced data threshold)) ->
        strict_peak data 3 0 (fst e))
  /\ (In e (fst (_detect_enhanced data threshold)) ->
        strict_trough data 3 0 (fst e) /\ (snd e <= 0.4)%Q)
  /\ (In e (snd (_detect_strict data threshold)) ->
        strict_peak data 3 0 (fst e))
  /\ (In e (fst (_detect_strict data threshold)) ->
        strict_trough data 3 0 (fst e) /\ (snd e <= 0.4)%Q).
Proof.
  assert (Ha : (In e (snd (_detect_alternating data threshold)) ->
                  strict_peak data 2 threshold (fst e))
               /\ (In e (fst (_detect_alternating data threshold)) ->
                     strict_trough data 2 threshold (fst e))).
  { unfold _detect_alternating.
    destruct (len data <? 5); [split; intros []|].
    pose proof (alternating_candidates_sound data threshold
                  2 (len data - 2) e) as [HM Hm].
    destruct (fold_left (alternating_candidates_body data threshold) _ _)
      as [all_minima all_maxima].
    split; intros He.
    - apply HM. exact (accepted_In _
        (alternating_walk_body_alternating threshold)
        (all_minima, all_maxima) KMax e He).
    - apply Hm. exact (accepted_In _
        (alternating_walk_body_alternating threshold)
        (all_minima, all_maxima) KMin e He). }
  assert (He : (In e (snd (_detect_enhanced data threshold)) ->
                  strict_peak data 3 0 (fst e))
               /\ (In e (fst (_detect_enhanced data threshold)) ->
                     strict_trough data 3 0 (fst e) /\ (snd e <= 0.4)%Q)).
  { unfold _detect_enhanced.
    destruct (len data <? 7); [split; intros []|].
    cbv zeta.
    match goal with |- context [potential_body data ?mt] =>
      pose proof (potential_candidates_sound data mt 3 (len data - 3) e)
        as [HM Hm];
      assert (Hmt : (mt <= 0.4)%Q) by apply min2_le_l;
      destruct (fold_left (potential_body data mt) _ _)
        as [potential_minima potential_maxima];
      split; intros Hin;
        [apply HM;
         exact (accepted_In _ (enhanced_walk_body_alternating threshold mt)
                  (potential_minima, potential_maxima) KMax e Hin)
        |destruct Hm as [Htr Hle];
         [exact (accepted_In _ (enhanced_walk_body_alternating threshold mt)
                   (potential_minima, potential_maxima) KMin e Hin)
         |split; [exact Htr | now apply (Qle_trans _ mt)]]]
    end. }
  assert (Hs : (In e (snd (_detect_strict data threshold)) ->
                  strict_peak data 3 0 (fst e))
               /\ (In e (fst (_detect_strict data threshold)) ->
                     strict_trough data 3 0 (fst e) /\ (snd e <= 0.4)%Q)).
  { unfold _detect_strict.
    destruct (len data <? 7); [split; intros []|].
    cbv zeta.
    match goal with |- context [potential_body data ?mt] =>
      pose proof (potential_candidates_sound data mt 3 (len data - 3) e)
        as [HM Hm];
      destruct (fold_left (potential_body data mt) _ _)
        as [potential_minima potential_maxima];
      split; intros Hin;
        [apply HM;
         exact (accepted_In _ (strict_walk_body_alternating threshold mt)
                  (potential_minima, potential_maxima) KMax e Hin)
        |apply Hm;
         exact (accepted_In _ (strict_walk_body_alternating threshold mt)
                  (potential_minima, potential_maxima) KMin e Hin)]
    end. }
  tauto.
Qed.

Lemma alternating_strategies_sound_witness :
  strict_peak two_close_peaks 2 0.0001%Q 10.
Proof.
  destruct (alternating_strategies_sound two_close_peaks 0.0001%Q (10, 5%Q))
    as (Hpeak & _).
  apply Hpeak. vm_compute. now left.
Defined.

(** ** Consecutive accepted extrema are separated *)


Section SeparatedWalk.

Variable R : tagged -> tagged -> Prop.
Variable walk : list tagged -> tagged -> list tagged.
Hypothesis walk_step :
  forall acc e,
    walk acc e = acc
    \/ (walk acc e = acc ++ [e] /\ (acc = [] \/ R (last acc e) e)).


End SeparatedWalk.








(** ** Flat sequences *)

Lemma flat_map_nil {A B : Type} (f : A -> list B) (l : list A) :
  (forall x, In x l -> f x = []) -> flat_map f l = [].
Proof.
  induction l as [|x l IH]; intros Hf; simpl; [reflexivity|].
  rewrite (Hf x (or_introl eq_refl)). apply IH.
  intros y Hy. apply Hf. now right.
Qed.

Lemma flat_map_singletons {A B : Type} (f : A -> list B) (g : A -> B)
    (l : list A) :
  (forall x, In x l -> f x = [g x]) -> flat_map f l = map g l.
Proof.
  induction l as [|x l IH]; intros Hf; simpl; [reflexivity|].
  rewrite (Hf x (or_introl eq_refl)). simpl. f_equal. apply IH.
  intros y Hy. apply Hf. now right.
Qed.

Lemma loop_nothing
    (step : list extremum * list extremum -> Z ->
            list extremum * list extremum)
    (Happ : forall acc i,
        step acc i = (fst acc ++ fst (step ([], []) i),
                      snd acc ++ snd (step ([], []) i)))
    (a b : Z) :
  (forall i, a <= i < b -> step ([], []) i = ([], [])) ->
  fold_left step (range a b) ([], []) = ([], []).
Proof.
  intros Hnone. rewrite (point_loop_flat_map step Happ). simpl.
  rewrite !flat_map_nil; [reflexivity| |];
    intros i Hi; apply in_range in Hi; now rewrite Hnone.
Qed.

Lemma item_In (data : list Q) (i : Z) :
  0 <= i < len data -> In data.[i] data.
Proof.
  intros Hi. unfold item. apply nth_In. unfold len in Hi. lia.
Qed.

Lemma In_item (data : list Q) (x : Q) :
  In x data -> exists i, 0 <= i < len data /\ x = data.[i].
Proof.
  intros Hin. apply (In_nth _ _ 0%Q) in Hin as (n & Hn & Hx).
  exists (Z.of_nat n). unfold len, item. rewrite Nat2Z.id.
  split; [lia | now symmetry].
Qed.

Lemma firstn_In {A : Type} (n : nat) (l : list A) (x : A) :
  In x (firstn n l) -> In x l.
Proof.
  revert l. induction n as [|n IH]; intros [|y l]; simpl; try easy.
  intros [<-|Hin]; [now left | right; now apply IH].
Qed.

Lemma skipn_In {A : Type} (n : nat) (l : list A) (x : A) :
  In x (skipn n l) -> In x l.
Proof.
  revert l. induction n as [|n IH]; intros [|y l]; simpl; try easy.
  intros Hin. right. now apply IH.
Qed.

Lemma slice_incl {A : Type} (data : list A) (a b : Z) (x : A) :
  In x (slice data a b) -> In x data.
Proof.
  unfold slice. intros Hin. eapply skipn_In, firstn_In, Hin.
Qed.

Lemma item_slopes_of (data : list Q) (i : Z) :
  0 <= i < len data - 1 ->
  (slopes_of data).[i] = (data.[i + 1] - data.[i])%Q.
Proof.
  intros Hi. unfold slopes_of, item at 1.
  rewrite (nth_indep _ 0%Q (data.[0 + 1] - data.[0])%Q)
    by (rewrite length_map, length_range; lia).
  rewrite (map_nth (fun i => (data.[i + 1] - data.[i])%Q)).
  replace (nth (Z.to_nat i) (range 0 (len data - 1)) 0) with i; [reflexivity|].
  symmetry. apply nth_error_nth.
  rewrite nth_error_range by lia. f_equal. lia.
Qed.

Section Constant.

Variable data : list Q.
Hypothesis data_constant : constant data.

Lemma simple_body_constant (t : Q) (i : Z) :
  (0 <= t)%Q -> 1 <= i < len data - 1 ->
  simple_body data t ([], []) i = ([], []).
Proof.
  intros Ht Hi. unfold simple_body.
  pose proof (data_constant i (i - 1)) as Hprev.
  replace (data.[i] >? data.[i - 1] + t)%Q with false
    by (symmetry; apply Qltb_ge; rewrite Hprev by lia; lra).
  replace (data.[i] <? data.[i - 1] - t)%Q with false
    by (symmetry; apply Qltb_ge; rewrite Hprev by lia; lra).
  reflexivity.
Qed.

Lemma slope_body_constant (t : Q) (i : Z) :
  (0 <= t)%Q -> 1 <= i < len data - 2 ->
  slope_body data (slopes_of data) t ([], []) i = ([], []).
Proof.
  intros Ht Hi. unfold slope_body.
  rewrite !item_slopes_of by lia.
  replace (i - 1 + 1) with i by lia.
  pose proof (data_constant i (i - 1)) as Hprev.
  pose proof (data_constant (i + 1) i) as Hnext.
  destruct (Qabs _ <? t)%Q; [reflexivity|].
  replace (data.[i] - data.[i - 1] >? t)%Q with false
    by (symmetry; apply Qltb_ge; rewrite Hprev by lia; lra).
  replace (data.[i + 1] - data.[i] >? t)%Q with false
    by (symmetry; apply Qltb_ge; rewrite Hnext by lia; lra).
  simpl. now rewrite andb_false_r.
Qed.

Lemma alternating_candidates_body_constant (t : Q) (i : Z) :
  (0 <= t)%Q -> 2 <= i < len data - 2 ->
  alternating_candidates_body data t ([], []) i = ([], []).
Proof.
  intros Ht Hi. unfold alternating_candidates_body.
  pose proof (data_constant i (i - 1)) as Hprev.
  replace (data.[i] >? data.[i - 1] + t)%Q with false
    by (symmetry; apply Qltb_ge; rewrite Hprev by lia; lra).
  replace (data.[i] <? data.[i - 1] - t)%Q with false
    by (symmetry; apply Qltb_ge; rewrite Hprev by lia; lra).
  reflexivity.
Qed.

Lemma potential_body_constant (mt : Q) (i : Z) :
  3 <= i < len data - 3 ->
  potential_body data mt ([], []) i = ([], []).
Proof.
  intros Hi. unfold potential_body.
  assert (Hin : In (i + 1) (range (i - 3) (i + 4))) by (apply in_range; lia).
  pose proof (data_constant i (i + 1)) as Hnext.
  assert (Hmax : is_max_candidate data i = false).
  { apply not_true_is_false. intros Hmax.
    apply is_max_candidate_peak in Hmax.
    specialize (Hmax (i + 1)). rewrite Hnext in Hmax by lia.
    assert ((data.[i + 1] + 0 < data.[i + 1])%Q) by (apply Hmax; lia). lra. }
  assert (Hmin : is_min_candidate data mt i = false).
  { apply not_true_is_false. intros Hmin.
    apply is_min_candidate_trough in Hmin as [Hmin _].
    specialize (Hmin (i + 1)). rewrite Hnext in Hmin by lia.
    assert ((data.[i + 1] < data.[i + 1] - 0)%Q) by (apply Hmin; lia). lra. }
  now rewrite Hmax, Hmin.
Qed.

Lemma window_body_constant (w : Z) (i : Z) :
  0 <= i < len data ->
  window_body data w ([], []) i = ([], [(i, data.[i])]).
Proof.
  intros Hi. unfold window_body.
  replace (forallb _ _) with true; [reflexivity|].
  symmetry. apply forallb_forall. intros x Hx.
  assert (Hin : In x data)
    by (apply in_app_or in Hx as [Hx|Hx]; eapply slice_incl; exact Hx).
  apply In_item in Hin as (j & Hj & ->).
  apply Qgeb_le. rewrite (data_constant i j) by assumption. apply Qle_refl.
Qed.

End Constant.

(** X7: on a sequence whose values are all equal, the simple, slope and
    alternating strategies (with a threshold that is not negative) and the
    enhanced and strict strategies find nothing, while the window strategy
    (with a window size that is not negative) reports every point it scans
    as a maximum and none as a minimum. *)
Theorem constant_sequence (data : list Q) (threshold : Q) (window_size : Z) :
  constant data -> (0 <= threshold)%Q -> 0 <= window_size ->
  _detect_simple data threshold = ([], [])
  /\ _detect_slope data threshold = ([], [])
  /\ _detect_alternating data threshold = ([], [])
  /\ _detect_enhanced data threshold = ([], [])
  /\ _detect_strict data threshold = ([], [])
  /\ _detect_window data window_size
     = Ok ([], if len data <? window_size + 2 then []
               else points data window_size (len data - window_size)).
Proof.
  intros Hc Ht Hw.
  split; [|split; [|split; [|split; [|split]]]].
  - unfold _detect_simple. destruct (len data <? 3); [reflexivity|].
    apply loop_nothing; [apply simple_body_appends|].
    intros i Hi. now apply simple_body_constant.
  - unfold _detect_slope. destruct (len data <? 4) eqn:E; [reflexivity|].
    cbv zeta. rewrite len_slopes_of.
    apply loop_nothing; [apply slope_body_appends|].
    intros i Hi. apply slope_body_constant; [assumption..|lia].
  - unfold _detect_alternating. destruct (len data <? 5); [reflexivity|].
    rewrite loop_nothing; [reflexivity|
      apply alternating_candidates_body_appends|].
    intros i Hi. now apply alternating_candidates_body_constant.
  - unfold _detect_enhanced. destruct (len data <? 7); [reflexivity|].
    cbv zeta. rewrite loop_nothing; [reflexivity|apply potential_body_appends|].
    intros i Hi. now apply potential_body_constant.
  - unfold _detect_strict. destruct (len data <? 7); [reflexivity|].
    cbv zeta. rewrite loop_nothing; [reflexivity|apply potential_body_appends|].
    intros i Hi. now apply potential_body_constant.
  - unfold _detect_window.
    destruct (len data <? window_size + 2); [reflexivity|].
    replace (window_size <? 0) with false by (symmetry; lia).
    rewrite (point_loop_flat_map _ (window_body_appends data window_size)).
    cbn [fst snd app]. f_equal. f_equal.
    + apply flat_map_nil. intros i Hi. apply in_range in Hi. cbv beta.
      rewrite window_body_constant; [reflexivity | assumption | lia].
    + unfold points. apply flat_map_singletons. intros i Hi.
      apply in_range in Hi. cbv beta.
      rewrite window_body_constant; [reflexivity | assumption | lia].
Qed.

Lemma constant_sequence_witness :
  _detect_simple [1; 1; 1; 1; 1]%Q 0.0001%Q = ([], [])
  /\ _detect_window [1; 1; 1; 1; 1]%Q 1
     = Ok ([], [(1, 1%Q); (2, 1%Q); (3, 1%Q)]).
Proof.
  destruct (constant_sequence [1; 1; 1; 1; 1]%Q 0.0001%Q 1)
    as (Hs & _ & _ & _ & _ & Hw).
  - intros i j Hi Hj.
    assert (Hi' : i = 0 \/ i = 1 \/ i = 2 \/ i = 3 \/ i = 4)
      by (unfold len in Hi; simpl in Hi; lia).
    assert (Hj' : j = 0 \/ j = 1 \/ j = 2 \/ j = 3 \/ j = 4)
      by (unfold len in Hj; simpl in Hj; lia).
    destruct Hi' as [-> |[-> |[-> |[-> | ->]]]];
      destruct Hj' as [-> |[-> |[-> |[-> | ->]]]]; reflexivity.
  - vm_compute. discriminate.
  - lia.
  - split; [exact Hs | exact Hw].
Defined.

(** ** A window of size zero *)

Lemma slice_empty {A : Type} (data : list A) (a b : Z) :
  clip_bound (len data) b <= clip_bound (len data) a -> slice data a b = [].
Proof.
  intros Hle. unfold slice.
  replace (Z.to_nat _) with 0%nat by lia. reflexivity.
Qed.

(** X8: with window size 0 both side windows are empty, so the window
    strategy reports every point of a sequence of at least two values as a
    maximum, and no minimum. *)
Theorem detect_window_zero (data : list Q) :
  _detect_window data 0
  = Ok ([], if len data <? 2 then [] else points data 0 (len data)).
Proof.
  unfold _detect_window. simpl (0 + 2).
  destruct (len data <? 2); [reflexivity|].
  change (0 <? 0) with false. cbv iota.
  rewrite (point_loop_flat_map _ (window_body_appends data 0)).
  cbn [fst snd app]. rewrite Z.sub_0_r.
  assert (Hbody : forall i, window_body data 0 ([], []) i
                            = ([], [(i, data.[i])])).
  { intros i. unfold window_body.
    replace (i - 0) with i by lia. replace (i + 0 + 1) with (i + 1) by lia.
    rewrite !slice_empty by apply Z.le_refl. reflexivity. }
  f_equal. f_equal.
  - apply flat_map_nil. intros i _. cbv beta. now rewrite Hbody.
  - unfold points. apply flat_map_singletons. intros i _. cbv beta.
    now rewrite Hbody.
Qed.

(** ** Plateaus *)

(** X9: with a noise level that is not positive no difference is below the
    plateau threshold, so no sequence has a plateau, not even a flat
    one. *)
Theorem has_plateaus_without_noise (data : list Q) (noise : Q) :
  (noise <= 0)%Q -> _has_plateaus data noise = false.
Proof.
  intros Hn. unfold _has_plateaus. destruct (len data <? 5); [reflexivity|].
  cbv zeta.
  assert (Hfold : forall diffs acc,
            snd acc = 0 ->
            snd (fold_left (plateau_body (noise * 0.5)) (map Qabs diffs) acc)
            = 0).
  { induction diffs as [|d diffs IH]; intros [cs mc] Hacc; simpl in *;
      [exact Hacc|].
    apply IH. unfold plateau_body.
    replace (Qabs d <? noise * 0.5)%Q with false; [exact Hacc|].
    symmetry. apply Qltb_ge. pose proof (Qabs_nonneg d). lra. }
  specialize (Hfold (Np.diff data) (0, 0) eq_refl).
  destruct (fold_left _ _ _) as [cs mc]. simpl in Hfold. now subst mc.
Qed.

Lemma has_plateaus_without_noise_witness :
  _has_plateaus (repeat 1%Q 12) 0%Q = false.
Proof.
  apply (has_plateaus_without_noise (repeat 1%Q 12) 0%Q). apply Qle_refl.
Defined.

(** ** Method selection *)

Lemma analyze_length `{NumpySqrt} (data : list Q) :
  get (analyze_data_characteristics data) length_ 0 = len data.
Proof. destruct data; reflexivity. Qed.

Lemma auto_short_is_simple `{NumpySqrt} (data : list Q) (kw : kwargs) :
  3 <= len data < 10 ->
  detect_extrema data None kw = detect_extrema data (Some "simple"%string) kw.
Proof.
  intros Hlen. unfold detect_extrema.
  destruct (len data <? 3); [reflexivity|].
  unfold select_optimal_method. rewrite analyze_length.
  replace (len data <? 10) with true by (symmetry; lia). reflexivity.
Qed.

Lemma simple_with_window_size `{NumpySqrt} (data : list Q) (kw : kwargs) :
  3 <= len data -> kw_window_size kw <> None ->
  detect_extrema data (Some "simple"%string) kw = Raise TypeError.
Proof.
  intros Hlen Hkw. unfold detect_extrema.
  replace (len data <? 3) with false by (symmetry; lia).
  unfold dispatch. simpl String.eqb. cbv iota.
  destruct (kw_window_size kw); [reflexivity | congruence].
Qed.

(** X10: on a sequence of 3 to 9 values automatic selection runs the simple
    strategy; and a run of the simple strategy on at least 3 values raises
    [TypeError] whenever a [window_size] keyword is passed, so automatic
    selection raises [TypeError] on 3 to 9 values in that case. *)
Theorem detect_extrema_short_auto `{NumpySqrt} (data : list Q) (kw : kwargs) :
  (3 <= len data < 10 ->
     detect_extrema data None kw = detect_extrema data (Some "simple"%string) kw)
  /\ (3 <= len data -> kw_window_size kw <> None ->
        detect_extrema data (Some "simple"%string) kw = Raise TypeError)
  /\ (3 <= len data < 10 -> kw_window_size kw <> None ->
        detect_extrema data None kw = Raise TypeError).
Proof.
  split; [apply auto_short_is_simple|].
  split; [apply simple_with_window_size|].
  intros Hlen Hkw. rewrite auto_short_is_simple by assumption.
  apply simple_with_window_size; [lia | exact Hkw].
Qed.

Lemma detect_extrema_short_auto_witness :
  detect_extrema scenario_data None (mk_kwargs (Some 0.0001%Q) (Some 3))
  = Raise TypeError.
Proof.
  apply (detect_extrema_short_auto scenario_data
           (mk_kwargs (Some 0.0001%Q) (Some 3))).
  - vm_compute. split; congruence.
  - discriminate.
Defined.

(** X11: a method name that is none of the six strategy names, such as
    "auto" passed as a name, runs the enhanced strategy. *)
Theorem detect_extrema_unknown_method `{NumpySqrt} (data : list Q)
    (method : string) (kw : kwargs) :
  method <> "simple"%string -> method <> "window"%string ->
  method <> "slope"%string -> method <> "alternating"%string ->
  method <> "enhanced"%string -> method <> "strict"%string ->
  detect_extrema data (Some method) kw
  = detect_extrema data (Some "enhanced"%string) kw.
Proof.
  intros H1 H2 H3 H4 H5 H6. unfold detect_extrema.
  destruct (len data <? 3); [reflexivity|].
  unfold dispatch.
  apply String.eqb_neq in H1, H2, H3, H4, H5, H6.
  rewrite H1, H2, H3, H4, H5, H6. reflexivity.
Qed.

Lemma detect_extrema_unknown_method_witness :
  detect_extrema scenario_data (Some "auto"%string) (mk_kwargs None None)
  = detect_extrema scenario_data (Some "enhanced"%string) (mk_kwargs None None).
Proof.
  apply (detect_extrema_unknown_method scenario_data "auto");
    vm_compute; discriminate.
Defined.

(** ** What the spacing step drops *)

Lemma last_In {A : Type} (l : list A) (d : A) : l <> [] -> In (last l d) l.
Proof.
  intros Hne. destruct (exists_last Hne) as (pre & x & ->).
  rewrite last_last. apply in_or_app. right. now left.
Qed.

Lemma remove_close_fold (d : Z) (rest acc : list extremum) :
  acc <> [] ->
  let out := fold_left (remove_close_body d) rest acc in
  (exists tl, out = acc ++ tl)
  /\ forall e, In e rest ->
       In e out \/ exists k, In k out /\ fst e - fst k < d.
Proof.
  revert acc. induction rest as [|x rest IH]; intros acc Hne; simpl.
  - split; [exists []; now rewrite app_nil_r | intros e []].
  - destruct (fst x - fst (last acc x) >=? d) eqn:E.
    + assert (Hb : remove_close_body d acc x = acc ++ [x])
        by (unfold remove_close_body; now rewrite E).
      rewrite Hb.
      destruct (IH (acc ++ [x])) as ((tl & Hout) & Hrest);
        [now destruct acc|].
      split.
      * exists (x :: tl). rewrite Hout, <- app_assoc. reflexivity.
      * intros e [<-|He]; [|now apply Hrest].
        left. rewrite Hout. apply in_or_app. left.
        apply in_or_app. right. now left.
    + assert (Hb : remove_close_body d acc x = acc)
        by (unfold remove_close_body; now rewrite E).
      rewrite Hb.
      destruct (IH acc Hne) as ((tl & Hout) & Hrest).
      split; [now exists tl|].
      intros e [<-|He]; [|now apply Hrest].
      right. exists (last acc x). split.
      * rewrite Hout. apply in_or_app. left. now apply last_In.
      * rewrite Z.geb_leb in E. apply Z.leb_gt in E. exact E.
Qed.

(** X12: the spacing step always keeps the first entry, and an entry it
    drops lies less than the minimum distance after an entry it keeps. *)
Theorem remove_close_drops_only_close (extrema : list extremum) (d : Z) :
  let out := _remove_close_extrema extrema d in
  (forall first rest, extrema = first :: rest ->
     exists tl, out = first :: tl)
  /\ forall e, In e extrema ->
       In e out \/ exists k, In k out /\ fst e - fst k < d.
Proof.
  unfold _remove_close_extrema. destruct extrema as [|first rest]; simpl.
  - split; [discriminate | intros e []].
  - assert (Hne : [first] <> []) by discriminate.
    destruct (remove_close_fold d rest [first] Hne) as ((tl & Hout) & Hrest).
    split.
    + intros f r Heq. injection Heq as <- <-. exists tl. exact Hout.
    + intros e [<-|He]; [|now apply Hrest].
      left. rewrite Hout. now left.
Qed.

Lemma remove_close_drops_only_close_witness :
  exists tl, _remove_close_extrema [(1, 5%Q); (2, 6%Q); (5, 7%Q)] 3
             = (1, 5%Q) :: tl.
Proof.
  destruct (remove_close_drops_only_close [(1, 5%Q); (2, 6%Q); (5, 7%Q)] 3)
    as [Hfirst _].
  apply (Hfirst (1, 5%Q) [(2, 6%Q); (5, 7%Q)]). reflexivity.
Defined.

(** ** What the quality filter tests *)






(** ** The constraint filters applied twice *)

Lemma top_by_abs_In (l : list extremum) (limit : Z) (e : extremum) :
  In e (top_by_abs l limit) -> In e l.
Proof.
  unfold top_by_abs. destruct (_ && _); [|easy].
  intros Hin. apply firstn_In in Hin.
  unfold sorted_by_abs_desc, sorted_by_key_reverse in Hin.
  now apply stable_sort_In in Hin.
Qed.

Lemma top_by_abs_length (l : list extremum) (limit : Z) :
  0 < limit -> len (top_by_abs l limit) <= limit.
Proof.
  intros Hlim. unfold top_by_abs.
  destruct ((limit >? 0) && (len l >? limit)) eqn:E.
  - unfold len. rewrite length_firstn. lia.
  - apply andb_false_iff in E as [E|E]; lia.
Qed.

Lemma top_by_abs_twice (l : list extremum) (limit : Z) :
  top_by_abs (top_by_abs l limit) limit = top_by_abs l limit.
Proof.
  destruct (Z.lt_ge_cases 0 limit) as [Hpos|Hneg].
  - pose proof (top_by_abs_length l limit Hpos) as Hlen.
    unfold top_by_abs at 1.
    replace (len (top_by_abs l limit) >? limit) with false by (symmetry; lia).
    now rewrite andb_false_r.
  - unfold top_by_abs.
    replace (limit >? 0) with false by (symmetry; lia). reflexivity.
Qed.

(** X14: both constraint filters are idempotent: filtering the filtered
    lists again, with the same thresholds, resp. the same limits and
    method, changes nothing. *)
Theorem constraint_filters_idempotent (minima maxima : list extremum)
    (max_threshold min_threshold : Q) (max_count_limit min_count_limit : Z)
    (method : string) :
  (let r := apply_threshold_filter minima maxima max_threshold min_threshold in
   apply_threshold_filter (fst r) (snd r) max_threshold min_threshold = r)
  /\ (let r := filter_results_by_count minima maxima
                 max_count_limit min_count_limit method in
      filter_results_by_count (fst r) (snd r)
        max_count_limit min_count_limit method = r).
Proof.
  split.
  - unfold apply_threshold_filter. simpl.
    destruct (max_threshold >? 0)%Q, (min_threshold <? 999)%Q;
      now rewrite ?filter_twice.
  - unfold filter_results_by_count.
    destruct (alternating_family method); simpl; [reflexivity|].
    now rewrite !top_by_abs_twice.
Qed.

(** ** Selections *)

Lemma add_selection_distinct (selected : list selection) (idx : Z) (x y : Q) :
  NoDup (map selected_idx_of selected) ->
  let added :=
    if existsb (fun s => (selected_idx_of s =? idx)%Z) selected
    then selected else selected ++ [(idx, x, y)] in
  NoDup (map selected_idx_of added)
  /\ In idx (map selected_idx_of added)
  /\ (In idx (map selected_idx_of selected) -> added = selected).
Proof.
  intros Hnd. simpl.
  destruct (existsb _ selected) eqn:E.
  - apply existsb_exists in E as (s & Hs & Heq). apply Z.eqb_eq in Heq.
    repeat split; [exact Hnd|]. rewrite <- Heq. now apply in_map.
  - assert (Hnot : ~ In idx (map selected_idx_of selected)).
    { intros Hin. apply in_map_iff in Hin as (s & Heq & Hs).
      assert (Htrue : existsb (fun s => selected_idx_of s =? idx) selected
                      = true)
        by (apply existsb_exists; exists s; split; [exact Hs | lia]).
      congruence. }
    rewrite map_app. simpl. repeat split.
    + apply (Permutation_NoDup (l := idx :: map selected_idx_of selected));
        [apply Permutation_cons_append | now constructor].
    + apply in_or_app. right. now left.
    + intros Hin. contradiction.
Qed.

(** X15: selecting keeps the selected indices pairwise distinct: after
    [add_maximum] or [add_minimum] the index is selected, no index is
    selected twice, and a click on an index that is already selected
    changes nothing (the coordinates stored first are kept). *)
Theorem add_selection_spec (selected : list selection) (idx : Z)
    (x_val y_val : Q) :
  NoDup (map selected_idx_of selected) ->
  (NoDup (map selected_idx_of (add_maximum selected idx x_val y_val))
   /\ In idx (map selected_idx_of (add_maximum selected idx x_val y_val))
   /\ (In idx (map selected_idx_of selected) ->
         add_maximum selected idx x_val y_val = selected))
  /\ (NoDup (map selected_idx_of (add_minimum selected idx x_val y_val))
      /\ In idx (map selected_idx_of (add_minimum selected idx x_val y_val))
      /\ (In idx (map selected_idx_of selected) ->
            add_minimum selected idx x_val y_val = selected)).
Proof.
  intros Hnd. split;
    exact (add_selection_distinct selected idx x_val y_val Hnd).
Qed.

Lemma add_selection_spec_witness :
  add_maximum [(2, 2%Q, 1%Q)] 2 7%Q 7%Q = [(2, 2%Q, 1%Q)].
Proof.
  destruct (add_selection_spec [(2, 2%Q, 1%Q)] 2 7%Q 7%Q) as [(_ & _ & H) _].
  - repeat constructor. intros [].
  - apply H. now left.
Defined.

(** ** The manual search returns distinct points *)

Section SnapAllDistinct.

Variable data : list Q.
Variable snap : Z -> result extremum.
Hypothesis snap_point :
  forall a, 0 <= a < len data ->
            exists e, snap a = Ok e /\ snd e = data.[fst e].

Lemma snap_all_distinct (selected : list selection) (found : list extremum) :
  (forall s, In s selected -> 0 <= selected_idx_of s < len data) ->
  (forall x, In x found -> snd x = data.[fst x]) ->
  NoDup (map fst found) ->
  exists out,
    snap_all snap selected found = Ok out
    /\ NoDup (map fst out)
    /\ (length out <= length found + length selected)%nat.
Proof.
  revert found. induction selected as [|s rest IH];
    intros found Hvalid Hval Hnd.
  - exists found. simpl. repeat split; [exact Hnd | lia].
  - simpl. destruct (snap_point (selected_idx_of s)) as (e & He & Hev);
      [apply Hvalid; now left|].
    rewrite He. simpl bind.
    set (found' := if mem e found then found else found ++ [e]).
    assert (Hval' : forall x, In x found' -> snd x = data.[fst x]).
    { intros x Hx. unfold found' in Hx. destruct (mem e found);
        [now apply Hval|].
      apply in_app_or in Hx as [Hx|[<-|[]]]; [now apply Hval | exact Hev]. }
    assert (Hnd' : NoDup (map fst found')).
    { unfold found'. destruct (mem e found) eqn:E; [exact Hnd|].
      rewrite map_app. simpl.
      apply (Permutation_NoDup (l := fst e :: map fst found));
        [apply Permutation_cons_append|].
      constructor; [|exact Hnd].
      intros Hin. apply in_map_iff in Hin as (x & Hfst & Hx).
      assert (Htrue : mem e found = true).
      { unfold mem. apply existsb_exists. exists x. split; [exact Hx|].
        rewrite Hfst, Z.eqb_refl. simpl.
        apply Qeq_bool_iff. rewrite (Hval x Hx), Hev, Hfst. reflexivity. }
      congruence. }
    assert (Hlen : (length found' <= length found + 1)%nat).
    { unfold found'. destruct (mem e found); [lia|].
      rewrite length_app. simpl. lia. }
    destruct (IH found') as (out & Hout & Hnd_out & Hlen_out);
      [intros s' Hs'; apply Hvalid; now right | exact Hval' | exact Hnd'|].
    exists out. repeat split; [exact Hout | exact Hnd_out | lia].
Qed.

End SnapAllDistinct.

(** X16: when every selected index is an index of the sequence, the manual
    search returns no index twice among the maxima, nor among the minima
    (two selections that snap to the same point yield it once), and never
    more points than there are selections. *)
Theorem find_extrema_around_selections_distinct (data : list Q)
    (selected_maxima selected_minima : list selection) :
  (forall s, In s selected_maxima -> 0 <= selected_idx_of s < len data) ->
  (forall s, In s selected_minima -> 0 <= selected_idx_of s < len data) ->
  exists minima maxima,
    find_extrema_around_selections data selected_maxima selected_minima
    = Ok (minima, maxima)
    /\ NoDup (map fst maxima) /\ NoDup (map fst minima)
    /\ (length maxima <= length selected_maxima)%nat
    /\ (length minima <= length selected_minima)%nat.
Proof.
  intros Hmax Hmin. unfold find_extrema_around_selections.
  destruct (snap_all_distinct data (snap_max data)) with
    (selected := selected_maxima) (found := @nil extremum)
    as (maxima & -> & HndM & HlenM);
    [|exact Hmax | intros x [] | constructor|].
  { intros a Ha. destruct (snap_max_window data a Ha) as (e & He & _ & Hv & _).
    now exists e. }
  destruct (snap_all_distinct data (snap_min data)) with
    (selected := selected_minima) (found := @nil extremum)
    as (minima & -> & Hndm & Hlenm);
    [|exact Hmin | intros x [] | constructor|].
  { intros a Ha. destruct (snap_min_window data a Ha) as (e & He & _ & Hv & _).
    now exists e. }
  exists minima, maxima. simpl in *. repeat split; assumption.
Qed.

Lemma find_extrema_around_selections_distinct_witness :
  exists minima maxima,
    find_extrema_around_selections scenario_data
      [(2, 2%Q, 1%Q); (4, 4%Q, 2%Q)] []
    = Ok (minima, maxima)
    /\ (length maxima <= 2)%nat.
Proof.
  destruct (find_extrema_around_selections_distinct scenario_data
              [(2, 2%Q, 1%Q); (4, 4%Q, 2%Q)] [])
    as (minima & maxima & Hrun & _ & _ & Hlen & _).
  - intros s [<-|[<-|[]]]; vm_compute; split; congruence.
  - intros s [].
  - exists minima, maxima. split; [exact Hrun | exact Hlen].
Defined.

(** ** Selections outside the sequence *)

Lemma getitem_out_of_range (data : list Q) (a : Z) :
  a < - len data \/ len data <= a -> getitem data a = Raise IndexError.
Proof.
  intros Ha. unfold getitem. destruct (a <? 0) eqn:E.
  - replace (0 <=? a + len data) with false by (symmetry; lia). reflexivity.
  - replace (a <? len data) with false by (symmetry; lia).
    now rewrite andb_false_r.
Qed.

Lemma getitem_raises (data : list Q) (a : Z) (e : error) :
  getitem data a = Raise e -> e = IndexError.
Proof.
  unfold getitem. destruct (_ && _); [discriminate|]. congruence.
Qed.

Lemma snap_all_raises (snap : Z -> result extremum)
    (Hraise : forall a e, snap a = Raise e -> e = IndexError)
    (selected : list selection) (found : list extremum) (e : error) :
  snap_all snap selected found = Raise e -> e = IndexError.
Proof.
  revert found. induction selected as [|s rest IH]; intros found; simpl;
    [discriminate|].
  destruct (snap (selected_idx_of s)) eqn:E; simpl; [apply IH|].
  intros Heq. injection Heq as <-. exact (Hraise _ _ E).
Qed.

Lemma snap_all_bad_selection (snap : Z -> result extremum)
    (Hraise : forall a e, snap a = Raise e -> e = IndexError)
    (selected : list selection) (found : list extremum) (s : selection) :
  In s selected -> snap (selected_idx_of s) = Raise IndexError ->
  snap_all snap selected found = Raise IndexError.
Proof.
  revert found. induction selected as [|s' rest IH]; intros found Hin Hbad;
    [destruct Hin|].
  simpl. destruct (snap (selected_idx_of s')) eqn:E; simpl.
  - destruct Hin as [-> |Hin]; [congruence|]. now apply IH.
  - f_equal. exact (Hraise _ _ E).
Qed.

Lemma snap_max_raises (data : list Q) (a : Z) (e : error) :
  snap_max data a = Raise e -> e = IndexError.
Proof.
  unfold snap_max. destruct (getitem data a) eqn:E; simpl; [discriminate|].
  intros Heq. injection Heq as <-. exact (getitem_raises _ _ _ E).
Qed.

Lemma snap_min_raises (data : list Q) (a : Z) (e : error) :
  snap_min data a = Raise e -> e = IndexError.
Proof.
  unfold snap_min. destruct (getitem data a) eqn:E; simpl; [discriminate|].
  intros Heq. injection Heq as <-. exact (getitem_raises _ _ _ E).
Qed.

Lemma bad_selection_raises (data : list Q)
    (selected_maxima selected_minima : list selection) (s : selection) :
  In s selected_maxima \/ In s selected_minima ->
  selected_idx_of s < - len data \/ len data <= selected_idx_of s ->
  find_extrema_around_selections data selected_maxima selected_minima
  = Raise IndexError.
Proof.
  intros Hin Hbad. unfold find_extrema_around_selections.
  assert (HbadM : snap_max data (selected_idx_of s) = Raise IndexError)
    by (unfold snap_max; now rewrite getitem_out_of_range).
  assert (Hbadm : snap_min data (selected_idx_of s) = Raise IndexError)
    by (unfold snap_min; now rewrite getitem_out_of_range).
  destruct (snap_all (snap_max data) selected_maxima []) as [maxima|e] eqn:EM.
  - simpl. destruct Hin as [Hin|Hin].
    + rewrite (snap_all_bad_selection _ (snap_max_raises data) _ _ s Hin HbadM)
        in EM. discriminate.
    + now rewrite (snap_all_bad_selection _ (snap_min_raises data)
                     _ _ s Hin Hbadm).
  - simpl. f_equal. exact (snap_all_raises _ (snap_max_raises data) _ _ _ EM).
Qed.

(** X17: the manual search raises [IndexError] as soon as one selected
    index lies outside [-len, len), for instance a selection kept from a
    longer sequence; and [IndexError] is the only exception it raises. *)
Theorem find_extrema_around_selections_out_of_range (data : list Q)
    (selected_maxima selected_minima : list selection) :
  (forall s, In s selected_maxima \/ In s selected_minima ->
     selected_idx_of s < - len data \/ len data <= selected_idx_of s ->
     find_extrema_around_selections data selected_maxima selected_minima
     = Raise IndexError)
  /\ (forall e,
        find_extrema_around_selections data selected_maxima selected_minima
        = Raise e -> e = IndexError).
Proof.
  split; [intros s; apply bad_selection_raises|].
  intros e. unfold find_extrema_around_selections.
  destruct (snap_all (snap_max data) selected_maxima []) as [maxima|e1] eqn:EM;
    simpl.
  - destruct (snap_all (snap_min data) selected_minima []) as [minima|e2]
      eqn:Em; simpl; [discriminate|].
    intros Heq. injection Heq as <-.
    exact (snap_all_raises _ (snap_min_raises data) _ _ _ Em).
  - intros Heq. injection Heq as <-.
    exact (snap_all_raises _ (snap_max_raises data) _ _ _ EM).
Qed.

Lemma find_extrema_around_selections_out_of_range_witness :
  find_extrema_around_selections scenario_data [] [(7, 7%Q, 0%Q)]
  = Raise IndexError.
Proof.
  destruct (find_extrema_around_selections_out_of_range scenario_data
              [] [(7, 7%Q, 0%Q)]) as [Hbad _].
  apply (Hbad (7, 7%Q, 0%Q)).
  - right. now left.
  - right. vm_compute. discriminate.
Defined.

(** ** The analysis driver *)

Lemma threshold_filter_In (minima maxima : list extremum)
    (max_threshold min_threshold : Q) (e : extremum) :
  let r := apply_threshold_filter minima maxima max_threshold min_threshold in
  (In e (fst r) -> In e minima) /\ (In e (snd r) -> In e maxima).
Proof.
  unfold apply_threshold_filter. simpl.
  destruct (max_threshold >? 0)%Q, (min_threshold <? 999)%Q;
    split; intros Hin; try exact Hin; now apply filter_In in Hin.
Qed.

Lemma count_filter_In (minima maxima : list extremum)
    (max_count_limit min_count_limit : Z) (method : string) (e : extremum) :
  let r := filter_results_by_count minima maxima
             max_count_limit min_count_limit method in
  (In e (fst r) -> In e minima) /\ (In e (snd r) -> In e maxima).
Proof.
  unfold filter_results_by_count.
  destruct (alternating_family method); simpl; [tauto|].
  split; apply top_by_abs_In.
Qed.

Lemma count_filter_length (minima maxima : list extremum)
    (max_count_limit min_count_limit : Z) (method : string) :
  alternating_family method = false ->
  let r := filter_results_by_count minima maxima
             max_count_limit min_count_limit method in
  (0 < min_count_limit -> len (fst r) <= min_count_limit)
  /\ (0 < max_count_limit -> len (snd r) <= max_count_limit).
Proof.
  intros Hm. unfold filter_results_by_count. rewrite Hm. simpl.
  split; apply top_by_abs_length.
Qed.

Lemma threshold_filter_bounds (minima maxima : list extremum)
    (max_threshold min_threshold : Q) :
  let r := apply_threshold_filter minima maxima max_threshold min_threshold in
  ((0 < max_threshold)%Q ->
     Forall (fun e => (max_threshold <= snd e)%Q) (snd r))
  /\ ((min_threshold < 999)%Q ->
        Forall (fun e => (snd e <= min_threshold)%Q) (fst r)).
Proof.
  unfold apply_threshold_filter. simpl. split; intros Hb.
  - apply Qgtb_lt in Hb. rewrite Hb. apply Forall_forall. intros e He.
    apply filter_In in He as [_ He]. now apply Qgeb_le in He.
  - apply Qltb_lt in Hb. rewrite Hb. apply Forall_forall. intros e He.
    apply filter_In in He as [_ He]. now apply Qle_bool_iff in He.
Qed.

(** What [run_analysis] stores in automatic mode, from the lists the
    detection returned. *)
Lemma constrained_results (s : settings) (minima maxima : list extremum) :
  let t := apply_threshold_filter minima maxima
             (max_threshold_var s) (min_threshold_var s) in
  let r := filter_results_by_count (fst t) (snd t)
             (max_count_var s) (min_count_var s) (method_var s) in
  (forall e, In e (fst r) -> In e minima)
  /\ (forall e, In e (snd r) -> In e maxima)
  /\ ((0 < max_threshold_var s)%Q ->
        Forall (fun e => (max_threshold_var s <= snd e)%Q) (snd r))
  /\ ((min_threshold_var s < 999)%Q ->
        Forall (fun e => (snd e <= min_threshold_var s)%Q) (fst r))
  /\ (alternating_family (method_var s) = false ->
        (0 < min_count_var s -> len (fst r) <= min_count_var s)
        /\ (0 < max_count_var s -> len (snd r) <= max_count_var s)).
Proof.
  intros t r.
  assert (Hin_m : forall e, In e (fst r) -> In e (fst t))
    by (intros e; apply (count_filter_In (fst t) (snd t))).
  assert (Hin_M : forall e, In e (snd r) -> In e (snd t))
    by (intros e; apply (count_filter_In (fst t) (snd t))).
  destruct (threshold_filter_bounds minima maxima
              (max_threshold_var s) (min_threshold_var s)) as (Hmax & Hmin).
  fold t in Hmax, Hmin.
  split; [|split; [|split; [|split]]].
  - intros e He.
    destruct (threshold_filter_In minima maxima
                (max_threshold_var s) (min_threshold_var s) e) as [Ha _].
    now apply Ha, Hin_m.
  - intros e He.
    destruct (threshold_filter_In minima maxima
                (max_threshold_var s) (min_threshold_var s) e) as [_ Hb].
    now apply Hb, Hin_M.
  - intros Hpos. specialize (Hmax Hpos).
    rewrite Forall_forall in *. intros e He. now apply Hmax, Hin_M.
  - intros Hlim. specialize (Hmin Hlim).
    rewrite Forall_forall in *. intros e He. now apply Hmin, Hin_m.
  - intros Hfam. now apply count_filter_length.
Qed.

Lemma find_local_extrema_unified_well_formed `{NumpySqrt} (data : list Q)
    (method : string) (kw : kwargs) :
  match find_local_extrema_unified data method kw with
  | Ok r => well_formed_result data 0 (len data) r
  | Raise e => raise_cause kw e
  end.
Proof.
  unfold find_local_extrema_unified.
  destruct (String.eqb method "auto"); apply detect_extrema_points.
Qed.

(** X18: in automatic mode [run_analysis] never touches the stored
    differences, and it either leaves the state as it was or stores two
    lists of points of the sequence that meet the constraints: maxima not
    below a positive maximum threshold, minima not above a minimum
    threshold below 999, and, unless the method is alternating, enhanced or
    strict, no more entries than a positive count limit allows. *)
Theorem run_analysis_automatic `{NumpySqrt} (data : list Q)
    (selected_maxima selected_minima : list selection) (s : settings)
    (g : gui) :
  manual_mode s = false ->
  let g' := run_analysis data selected_maxima selected_minima s g in
  difference_results g' = difference_results g
  /\ (g' = g
      \/ exists minima maxima,
           results g' = Some (minima, maxima)
           /\ Forall (data_point data 0 (len data)) minima
           /\ Forall (data_point data 0 (len data)) maxima
           /\ ((0 < max_threshold_var s)%Q ->
                 Forall (fun e => (max_threshold_var s <= snd e)%Q) maxima)
           /\ ((min_threshold_var s < 999)%Q ->
                 Forall (fun e => (snd e <= min_threshold_var s)%Q) minima)
           /\ (alternating_family (method_var s) = false ->
                 (0 < min_count_var s -> len minima <= min_count_var s)
                 /\ (0 < max_count_var s -> len maxima <= max_count_var s))).
Proof.
  intros Hmode g'. subst g'. unfold run_analysis. rewrite Hmode.
  destruct data as [|q rest] eqn:Ed; [split; [reflexivity | now left]|].
  rewrite <- Ed. clear Ed.
  unfold get_user_constraints.
  destruct ((max_count_var s <? 0) || (min_count_var s <? 0));
    [split; [reflexivity | now left]|].
  pose proof (find_local_extrema_unified_well_formed data (method_var s)
                (mk_kwargs (Some (threshold_var s))
                           (Some (window_size_var s)))) as Hwf.
  destruct (find_local_extrema_unified data (method_var s) _)
    as [[minima maxima]|e]; [|split; [reflexivity | now left]].
  destruct Hwf as (Hm & HM & _ & _). simpl in Hm, HM.
  pose proof (constrained_results s minima maxima) as Hc. cbv zeta in Hc.
  destruct (apply_threshold_filter minima maxima _ _) as [m1 M1].
  simpl fst in Hc. simpl snd in Hc.
  destruct (filter_results_by_count m1 M1 _ _ _) as [m2 M2].
  simpl fst in Hc. simpl snd in Hc.
  destruct Hc as (H1 & H2 & H3 & H4 & H5).
  split; [reflexivity|]. right. exists m2, M2.
  rewrite Forall_forall in Hm, HM.
  split; [reflexivity|].
  split; [apply Forall_forall; intros e He; now apply Hm, H1|].
  split; [apply Forall_forall; intros e He; now apply HM, H2|].
  repeat split; assumption || (apply H5; assumption).
Qed.

Lemma run_analysis_automatic_witness :
  difference_results
    (run_analysis scenario_data [] []
       (mk_settings false "window" 0.0001%Q 1 6%Q 999%Q 1 0)
       (mk_gui None [mk_pair 1 1 7 0 2 5]))
  = [mk_pair 1 1 7 0 2 5].
Proof.
  destruct (run_analysis_automatic scenario_data [] []
              (mk_settings false "window" 0.0001%Q 1 6%Q 999%Q 1 0)
              (mk_gui None [mk_pair 1 1 7 0 2 5]) eq_refl) as [Hd _].
  exact Hd.
Defined.

(** X19: [run_analysis] catches every exception and then leaves the state
    as it was.  In automatic mode this happens on every sequence of at
    least 3 values when the method is "simple", and on every sequence of 3
    to 9 values when it is "auto", since the driver always passes a
    [window_size]; in manual mode it happens when a selected index lies
    outside the sequence. *)
Theorem run_analysis_swallows_errors `{NumpySqrt} (data : list Q)
    (selected_maxima selected_minima : list selection) (s : settings)
    (g : gui) :
  (manual_mode s = false -> 3 <= len data ->
     method_var s = "simple"%string
     \/ (method_var s = "auto"%string /\ len data < 10) ->
     run_analysis data selected_maxima selected_minima s g = g)
  /\ (manual_mode s = true ->
        (exists sel, (In sel selected_maxima \/ In sel selected_minima)
                     /\ (selected_idx_of sel < - len data
                         \/ len data <= selected_idx_of sel)) ->
        run_analysis data selected_maxima selected_minima s g = g).
Proof.
  split.
  - intros Hmode Hlen Hmethod. unfold run_analysis. rewrite Hmode.
    destruct data as [|q rest] eqn:Ed; [reflexivity|].
    rewrite <- Ed in *. clear Ed.
    destruct (get_user_constraints s) as [[max_count min_count]|];
      [|reflexivity].
    replace (find_local_extrema_unified data (method_var s)
               (mk_kwargs (Some (threshold_var s)) (Some (window_size_var s))))
      with (@Raise (list extremum * list extremum) TypeError); [reflexivity|].
    symmetry. unfold find_local_extrema_unified.
    destruct Hmethod as [-> | [-> Hshort]]; simpl String.eqb; cbv iota.
    + apply simple_with_window_size; [exact Hlen | discriminate].
    + rewrite auto_short_is_simple by lia.
      apply simple_with_window_size; [exact Hlen | discriminate].
  - intros Hmode (sel & Hin & Hbad). unfold run_analysis. rewrite Hmode.
    destruct data as [|q rest] eqn:Ed; [reflexivity|].
    rewrite <- Ed in *. clear Ed.
    rewrite (bad_selection_raises data
               selected_maxima selected_minima sel Hin Hbad).
    destruct selected_maxima, selected_minima; reflexivity.
Qed.

Lemma run_analysis_swallows_errors_witness :
  run_analysis scenario_data [] []
    (mk_settings false "simple" 0.0001%Q 3 0%Q 999%Q 0 0) (mk_gui None [])
  = mk_gui None [].
Proof.
  destruct (run_analysis_swallows_errors scenario_data [] []
              (mk_settings false "simple" 0.0001%Q 3 0%Q 999%Q 0 0)
              (mk_gui None [])) as [Hauto _].
  apply Hauto; [reflexivity | vm_compute; discriminate | now left].
Defined.
